(** * stylelint-plugin-stylus: option matching and the
      [block-closing-brace-empty-line-before] rule

    A shallow embedding of [lib/utils/stylelint-v15/option] (the
    string-or-RegExp matcher behind [optionsMatches]) and of the [check]
    function of [rules/block-closing-brace-empty-line-before.js].

    JavaScript strings are modelled as [string], indices as [Z] (so that
    [length - 1] and [length - 2] may go negative, as they do in the source),
    [undefined] as [None].  The regular-expression engine of the JavaScript
    runtime is an interface ([RegExpEngine]); code that calls it runs in a
    small state-and-exception monad [M] over the engine's heap. *)

From Stdlib Require Import ZArith Lia Ascii String.
From stdpp Require Import base strings gmap list.

Local Open Scope Z_scope.

(** ** JavaScript strings *)

Module Js.

(** [s.length] *)
Definition length (s : string) : Z := Z.of_nat (String.length s).

(** [s[i]]: the character at index [i], [undefined] outside the string. *)
Definition charAt (s : string) (i : Z) : option ascii :=
  if i <? 0 then None else String.get (Z.to_nat i) s.

(** [s[i] === c] for a one-character literal [c]. *)
Definition charIs (o : option ascii) (c : ascii) : bool :=
  match o with
  | Some a => Ascii.eqb a c
  | None => false
  end.

(** A relative index of [slice]: negative counts from the end, and the
    result is clamped to [0 .. length]. *)
Definition relIndex (len i : Z) : Z :=
  if i <? 0 then Z.max (len + i) 0 else Z.min i len.

(** [s.slice(start, end)] *)
Definition slice (s : string) (start end_ : Z) : string :=
  let len := length s in
  let from := relIndex len start in
  let to := relIndex len end_ in
  String.substring (Z.to_nat from) (Z.to_nat (Z.max (to - from) 0)) s.

(** [s || ""] on a string: the empty string is the only falsy string. *)
Definition orEmpty (s : string) : string :=
  match s with
  | EmptyString => EmptyString
  | String _ _ => s
  end.

(** Truthiness of a string value. *)
Definition truthyString (s : string) : bool :=
  match s with
  | EmptyString => false
  | String _ _ => true
  end.

(** [c.toLowerCase()] on an ASCII letter. *)
Definition lowerChar (c : ascii) : ascii :=
  let n := Ascii.N_of_ascii c in
  if ((65 <=? n) && (n <=? 90))%N then Ascii.ascii_of_N (n + 32) else c.

Fixpoint toLowerCase (s : string) : string :=
  match s with
  | EmptyString => EmptyString
  | String c rest => String (lowerChar c) (toLowerCase rest)
  end.

(** Values a JavaScript program can throw here. *)
Inductive Error : Type :=
| SyntaxError (message : string)
| TypeError (message : string).

(** Completion of an evaluation: a value, or a thrown error. *)
Inductive Completion (A : Type) : Type :=
| Normal (a : A)
| Throw (e : Error).

Arguments Normal {A} a.
Arguments Throw {A} e.

End Js.

(** ** The regular-expression engine

    [RegExp_new pattern flags] is [new RegExp(pattern, flags)]: it yields a
    regex object or throws.  [RegExp_exec r value] is [r.exec(value)]: [None]
    for [null], [Some m] where [m] is element 0 of the match array.  Both
    thread the engine's heap, because [exec] on a regex with the [g] or [y]
    flag reads and writes the object's [lastIndex]. *)
Class RegExpEngine : Type := {
  RegExp : Type;
  Heap : Type;
  RegExp_new : string → string → Heap → Js.Completion RegExp * Heap;
  RegExp_exec : RegExp → string → Heap → option string * Heap
}.

(** ** The evaluation monad *)

Definition M `{RegExpEngine} (A : Type) : Type := Heap → Js.Completion A * Heap.

Definition ret `{RegExpEngine} {A : Type} (a : A) : M A :=
  fun h => (Js.Normal a, h).

Definition throw `{RegExpEngine} {A : Type} (e : Js.Error) : M A :=
  fun h => (Js.Throw e, h).

Definition bind `{RegExpEngine} {A B : Type} (m : M A) (k : A → M B) : M B :=
  fun h =>
    match m h with
    | (Js.Normal a, h') => k a h'
    | (Js.Throw e, h') => (Js.Throw e, h')
    end.

Notation "'let*' x ':=' c1 'in' c2" := (bind c1 (fun x => c2))
  (at level 10, x name, c1 at level 100, c2 at level 200).

(** [new RegExp(pattern, flags)] and [r.exec(value)] as computations. *)
Definition newRegExp `{RegExpEngine} (pattern flags : string) : M RegExp :=
  RegExp_new pattern flags.

Definition exec `{RegExpEngine} (r : RegExp) (value : string) : M (option string) :=
  fun h => let (m, h') := RegExp_exec r value h in (Js.Normal m, h').

(** ** lib/utils/stylelint-v15/option *)

Section Option.
Context `{Engine : RegExpEngine}.

(** [string | RegExp] *)
Inductive Pattern : Type :=
| PString (s : string)
| PRegExp (r : RegExp).

(** [string | RegExp | Array<string | RegExp>] *)
Inductive Comparison : Type :=
| COne (p : Pattern)
| CArray (ps : list Pattern).

(** [string | Array<string>] *)
Inductive Input : Type :=
| IString (s : string)
| IArray (ss : list string).

(** The object a successful test returns:
    [{ match, pattern, substring }]. *)
Record Match : Type := mkMatch {
  match_ : string;
  pattern : Pattern;
  substring : string
}.

(** [false | Match] *)
Definition MatchResult : Type := option Match.

(** Truthiness of a test result: [false] is falsy, an object is truthy. *)
Definition truthy (r : MatchResult) : bool :=
  match r with
  | Some _ => true
  | None => false
  end.

Definition slash : ascii := "/"%char.
Definition letter_i : ascii := "i"%char.

(** The three characters the convention looks at. *)
Definition firstComparisonChar (comparison : string) : option ascii :=
  Js.charAt comparison 0.
Definition lastComparisonChar (comparison : string) : option ascii :=
  Js.charAt comparison (Js.length comparison - 1).
Definition secondToLastComparisonChar (comparison : string) : option ascii :=
  Js.charAt comparison (Js.length comparison - 2).

Definition comparisonIsRegex (comparison : string) : bool :=
  Js.charIs (firstComparisonChar comparison) slash &&
  (Js.charIs (lastComparisonChar comparison) slash ||
   (Js.charIs (secondToLastComparisonChar comparison) slash &&
    Js.charIs (lastComparisonChar comparison) letter_i)).

Definition hasCaseInsensitiveFlag (comparison : string) : bool :=
  comparisonIsRegex comparison &&
  Js.charIs (lastComparisonChar comparison) letter_i.

Definition testAgainstStringOrRegExp (value : string) (comparison : Pattern)
  : M MatchResult :=
  match comparison with
  | PRegExp r =>
      (* If it's a RegExp, test directly *)
      let* match0 := exec r value in
      ret (match match0 with
           | Some m0 => Some (mkMatch value comparison (Js.orEmpty m0))
           | None => None
           end)
  | PString c =>
      (* Check if it's RegExp in a string; if so, create a new RegExp *)
      if comparisonIsRegex c then
        let* valueMatch :=
          (if hasCaseInsensitiveFlag c
           then (let* r := newRegExp (Js.slice c 1 (-2)) "i" in exec r value)
           else (let* r := newRegExp (Js.slice c 1 (-1)) EmptyString in
                 exec r value)) in
        ret (match valueMatch with
             | Some m0 => Some (mkMatch value comparison (Js.orEmpty m0))
             | None => None
             end)
      else
        (* Otherwise, it's a string. Do a strict comparison *)
        ret (if String.eqb value c
             then Some (mkMatch value comparison value)
             else None)
  end.

(** The [for ... of] loop of [testAgainstStringOrRegExpOrArray]. *)
Fixpoint forComparisonItems (value : string) (comparison : list Pattern)
  : M MatchResult :=
  match comparison with
  | [] => ret None
  | comparisonItem :: rest =>
      let* testResult := testAgainstStringOrRegExp value comparisonItem in
      if truthy testResult then ret testResult
      else forComparisonItems value rest
  end.

Definition testAgainstStringOrRegExpOrArray (value : string)
  (comparison : Comparison) : M MatchResult :=
  match comparison with
  | COne p => testAgainstStringOrRegExp value p
  | CArray ps => forComparisonItems value ps
  end.

(** The [for ... of] loop of [matchesStringOrRegExp]. *)
Fixpoint forInputItems (input : list string) (comparison : Comparison)
  : M MatchResult :=
  match input with
  | [] => ret None
  | inputItem :: rest =>
      let* testResult :=
        testAgainstStringOrRegExpOrArray inputItem comparison in
      if truthy testResult then ret testResult
      else forInputItems rest comparison
  end.

Definition matchesStringOrRegExp (input : Input) (comparison : Comparison)
  : M MatchResult :=
  match input with
  | IString s => testAgainstStringOrRegExpOrArray s comparison
  | IArray ss => forInputItems ss comparison
  end.

End Option.

(** [optionsMatches] lives in the same module; its [options] argument is an
    object used as a map from property names to comparisons, or
    [undefined]/[null] ([None]). *)
Section OptionsMatches.
Context `{Engine : RegExpEngine}.

(** A value of unknown type: only [typeof input === "string"] is asked. *)
Inductive Unknown : Type :=
| UString (s : string)
| UOther.

(** Truthiness of an option value: the empty string is falsy; non-empty
    strings, regex objects and arrays (also the empty array) are truthy. *)
Definition truthyComparison (c : Comparison) : bool :=
  match c with
  | COne (PString s) => Js.truthyString s
  | COne (PRegExp _) => true
  | CArray _ => true
  end.

Definition optionsMatches (options : option (gmap string Comparison))
  (propertyName : string) (input : Unknown) : M bool :=
  match options with
  | None => ret false
  | Some o =>
      match o !! propertyName with
      | None => ret false
      | Some comparison =>
          if truthyComparison comparison then
            match input with
            | UString s =>
                let* r := matchesStringOrRegExp (IString s) comparison in
                ret (truthy r)
            | UOther => ret false
            end
          else ret false
      end
  end.

End OptionsMatches.

(** ** rules/block-closing-brace-empty-line-before.js *)

(** The syntax tree belongs to postcss.  [check] reads a statement's [type],
    the [type] of each child in [nodes] ([None] when the statement has no
    block), [raws.after] and the serialization [toString()]. *)
Class TreeProvider : Type := {
  Statement : Type;
  ChildNode : Type;
  statement_type : Statement → string;
  statement_nodes : Statement → option (list ChildNode);
  node_type : ChildNode → string;
  raws_after : Statement → option string;
  toString : Statement → string
}.

(** [{ expected, rejected }] *)
Record Messages : Type := mkMessages {
  expected : string;
  rejected : string
}.

(** The record handed to stylelint's [report] (the [result] it is filed
    under is the sink itself). *)
Record Report `{TreeProvider} : Type := mkReport {
  message : string;
  report_ruleName : string;
  node : Statement;
  index : Z
}.

Arguments mkReport {_} message report_ruleName node index.

(** [context]: [fix] (here [fix_]) by truthiness, [newline] as [Some]
    exactly when [typeof newline === "string"]. *)
Record RuleContext : Type := mkContext {
  fix_ : bool;
  newline : option string
}.

Definition LF : ascii := "010"%char.
Definition CR : ascii := "013"%char.
Definition semicolon : ascii := ";"%char.

(** [s.replace(/;+/, "")]: the pattern has no [g] flag, so the leftmost
    match, a maximal run of semicolons, is removed and the rest is kept. *)
Fixpoint dropSemicolonRun (s : string) : string :=
  match s with
  | EmptyString => EmptyString
  | String c rest =>
      if Ascii.eqb c semicolon then dropSemicolonRun rest else s
  end.

Fixpoint replaceSemicolonRun (s : string) : string :=
  match s with
  | EmptyString => EmptyString
  | String c rest =>
      if Ascii.eqb c semicolon then dropSemicolonRun rest
      else String c (replaceSemicolonRun rest)
  end.

Definition ruleName : string := "block-closing-brace-empty-line-before".

(** The texts the rule registers with [ruleMessages]. *)
Definition messageTexts : Messages :=
  mkMessages "Expected empty line before closing brace"
             "Unexpected empty line before closing brace".

Definition possiblePrimary : list string := ["always-multi-line"; "never"].
Definition possibleExcept : list string := ["after-closing-brace"].

(** The functions [check] calls and this development does not look into:
    stylelint's [ruleMessages], and the helpers of this plugin's [utils/ast]
    ([blockString], [hasEmptyLine]), [utils/text] ([isSingleLineString]) and
    [utils/fix] ([addEmptyLineAfter], [removeEmptyLinesAfter], which rewrite
    the statement they are given). *)
Class Collaborators `{TreeProvider} : Type := {
  ruleMessages : string → Messages → Messages;
  blockString : Statement → string;
  isSingleLineString : string → bool;
  hasEmptyLine : string → bool;
  addEmptyLineAfter : Statement → string → Statement;
  removeEmptyLinesAfter : Statement → string → Statement
}.

Section Rule.
Context `{Engine : RegExpEngine} `{Tree : TreeProvider}.
Context `{Utils : !Collaborators}.

(** Modelled from the spec: [hasBlock] of [utils/ast] is not among the
    sources; section 4.2 step 1 skips a statement that "has no body at
    all". *)
Definition hasBlock (statement : Statement) : bool :=
  match statement_nodes statement with
  | Some _ => true
  | None => false
  end.

(** Modelled from the spec: [hasEmptyBlock] of [utils/ast] is not among the
    sources; section 4.2 step 1 skips a statement that "has a body with
    zero children (empty block)". *)
Definition hasEmptyBlock (statement : Statement) : bool :=
  match statement_nodes statement with
  | Some [] => true
  | _ => false
  end.

Definition messages : Messages :=
  ruleMessages ruleName messageTexts.

(** One element of [[value].flat()] checked against a list of possible
    strings, as stylelint's [validateOptions] does. *)
Definition possiblePattern (possible : list string) (p : Pattern) : bool :=
  match p with
  | PString s => existsb (String.eqb s) possible
  | PRegExp _ => false
  end.

Definition possibleValue (possible : list string) (c : Comparison) : bool :=
  match c with
  | COne p => possiblePattern possible p
  | CArray ps => forallb (possiblePattern possible) ps
  end.

(** The outcome of [validateOptions] on the two schemas of the rule:
    [primary] is one of [possiblePrimary]; [secondaryOptions] is optional
    and may only hold [except], with values among [possibleExcept].  The
    rule returns before walking the tree when this is [false], so [check]
    only ever runs on options for which it is [true]. *)
Definition validOptions (primary : string)
  (secondaryOptions : option (gmap string Comparison)) : bool :=
  existsb (String.eqb primary) possiblePrimary &&
  match secondaryOptions with
  | None => true
  | Some o =>
      forallb (fun kv => String.eqb (fst kv) "except" &&
                         possibleValue possibleExcept (snd kv))
              (map_to_list o)
  end.

Variable primary : string.
Variable secondaryOptions : option (gmap string Comparison).
Variable context : RuleContext.

(** Get whitespace after the last child, ignoring extra semicolon. *)
Definition before (statement : Statement) : string :=
  replaceSemicolonRun
    (match raws_after statement with
     | Some after => Js.orEmpty after
     | None => EmptyString
     end).

(** Calculate index. *)
Definition closingBraceIndex (statement : Statement) : Z :=
  let statementString := toString statement in
  let index := Js.length statementString - 1 in
  if Js.charIs (Js.charAt statementString (index - 1)) CR
  then index - 1
  else index.

(** Set expectation. *)
Definition expectEmptyLineBefore (statement : Statement) : M bool :=
  match statement_nodes statement with
  | None => throw (Js.TypeError "statement.nodes is undefined")
  | Some nodes =>
      let childNodeTypes := map node_type nodes in
      (* Reverse the primary options if `after-closing-brace` is set *)
      let* excepted :=
        optionsMatches secondaryOptions "except"
                       (UString "after-closing-brace") in
      if excepted
         && String.eqb (statement_type statement) "atrule"
         && negb (existsb (String.eqb "decl") childNodeTypes)
      then ret (String.eqb primary "never")
      else ret (String.eqb primary "always-multi-line"
                && negb (isSingleLineString (blockString statement)))
  end.

(** [check], over the statement it may rewrite and the reports filed so
    far. *)
Definition check (statement : Statement) (result : list Report)
  : M (Statement * list Report) :=
  (* Return early if blockless or has empty block *)
  if negb (hasBlock statement) || hasEmptyBlock statement
  then ret (statement, result)
  else
    let before := before statement in
    let index := closingBraceIndex statement in
    let* expectEmptyLineBefore := expectEmptyLineBefore statement in
    (* Check for at least one empty line *)
    let hasEmptyLineBefore := hasEmptyLine before in
    (* Return if the expectation is met *)
    if Bool.eqb expectEmptyLineBefore hasEmptyLineBefore
    then ret (statement, result)
    else if fix_ context then
      match newline context with
      | None => ret (statement, result)
      | Some newline =>
          if expectEmptyLineBefore
          then ret (addEmptyLineAfter statement newline, result)
          else ret (removeEmptyLinesAfter statement newline, result)
      end
    else
      let message :=
        if expectEmptyLineBefore then expected messages
        else rejected messages in
      ret (statement, result ++ [mkReport message ruleName statement index]).

End Rule.

(** ** Vocabulary of the specification *)

(** Section 4.1, the embedded-regex convention, in the specification's
    words: first character, last character, second-to-last character. *)
Definition firstCharIs (a : ascii) (c : string) : Prop :=
  ∃ rest, c = String a rest.

Definition lastCharIs (a : ascii) (c : string) : Prop :=
  ∃ front, c = front +:+ String a EmptyString.

Definition secondToLastCharIs (a : ascii) (c : string) : Prop :=
  ∃ front b, c = front +:+ String a (String b EmptyString).

Definition embeddedRegexConvention (c : string) : Prop :=
  firstCharIs slash c ∧
  (lastCharIs slash c ∨ (secondToLastCharIs slash c ∧ lastCharIs letter_i c)).

(** Section 3: [substring] is a contiguous slice of [matchedInput]. *)
Definition contiguousSlice (part whole : string) : Prop :=
  ∃ front back, whole = front +:+ part +:+ back.

(** No semicolon, only semicolons, a leading semicolon. *)
Fixpoint noSemicolon (s : string) : bool :=
  match s with
  | EmptyString => true
  | String c rest => negb (Ascii.eqb c semicolon) && noSemicolon rest
  end.

Fixpoint onlySemicolons (s : string) : bool :=
  match s with
  | EmptyString => true
  | String c rest => Ascii.eqb c semicolon && onlySemicolons rest
  end.

Definition startsWithSemicolon (s : string) : bool :=
  match s with
  | EmptyString => false
  | String c _ => Ascii.eqb c semicolon
  end.

(** Every semicolon removed, wherever it stands. *)
Fixpoint stripSemicolons (s : string) : string :=
  match s with
  | EmptyString => EmptyString
  | String c rest =>
      if Ascii.eqb c semicolon then stripSemicolons rest
      else String c (stripSemicolons rest)
  end.

Section Vocabulary.
Context `{Engine : RegExpEngine}.

(** "Compile it as a regular expression and apply it to the value exactly as
    in the native-regex branch": the native branch run on the freshly built
    regex, the result carrying the comparison it was asked about. *)
Definition withPattern (p : Pattern) (m : Match) : Match :=
  mkMatch (match_ m) p (substring m).

Definition viaRegExp (inner flags : string) (value : string) (c : string)
  : M MatchResult :=
  let* r := newRegExp inner flags in
  let* res := testAgainstStringOrRegExp value (PRegExp r) in
  ret (option_map (withPattern (PString c)) res).

(** A regex run on a value, read off the engine: [exec] is called on the
    value, and a match array becomes the result object with element 0 as
    [substring], [null] becomes NoMatch. *)
Definition applied (r : RegExp) (value : string) (p : Pattern) (h : Heap)
  : Js.Completion MatchResult * Heap :=
  match RegExp_exec r value h with
  | (Some m0, h') => (Js.Normal (Some (mkMatch value p m0)), h')
  | (None, h') => (Js.Normal None, h')
  end.

(** A regex built from [inner] and [flags] and then run on the value; a
    constructor that throws ends the evaluation. *)
Definition compiledAndApplied (inner flags value c : string) (h : Heap)
  : Js.Completion MatchResult * Heap :=
  match RegExp_new inner flags h with
  | (Js.Normal r, h1) => applied r value (PString c) h1
  | (Js.Throw e, h1) => (Js.Throw e, h1)
  end.

(** The literal-comparison branch. *)
Definition literalComparison (value c : string) : MatchResult :=
  if String.eqb value c then Some (mkMatch value (PString c) value) else None.

(** An input or a comparison as the sequence it stands for. *)
Definition inputItems (input : Input) : list string :=
  match input with
  | IString s => [s]
  | IArray ss => ss
  end.

Definition comparisonItems (comparison : Comparison) : list Pattern :=
  match comparison with
  | COne p => [p]
  | CArray ps => ps
  end.

(** Every (input element, comparison element) pair, input elements in order
    and, for each, the comparison elements in order. *)
Definition pairsInOrder (input : Input) (comparison : Comparison)
  : list (string * Pattern) :=
  flat_map (fun v => map (pair v) (comparisonItems comparison))
           (inputItems input).

(** "Return the first non-NoMatch result": one pass over the pairs that
    stops at the first hit. *)
Fixpoint firstHit (pairs : list (string * Pattern)) : M MatchResult :=
  match pairs with
  | [] => ret None
  | (v, p) :: rest =>
      let* r := testAgainstStringOrRegExp v p in
      match r with
      | Some m => ret (Some m)
      | None => firstHit rest
      end
  end.

(** [misses pairs h h']: evaluated one after the other from heap [h], every
    pair is a NoMatch, and the heap is then [h']. *)
Inductive misses : list (string * Pattern) → Heap → Heap → Prop :=
| misses_nil h : misses [] h h
| misses_cons v p rest h h1 h2 :
    testAgainstStringOrRegExp v p h = (Js.Normal None, h1) →
    misses rest h1 h2 →
    misses ((v, p) :: rest) h h2.

(** "[except] contains [s]": the option is present and is [s] itself or a
    sequence with [s] among its elements. *)
Definition patternIs (s : string) (p : Pattern) : bool :=
  match p with
  | PString t => String.eqb t s
  | PRegExp _ => false
  end.

Definition exceptContains (secondaryOptions : option (gmap string Comparison))
  (s : string) : bool :=
  match secondaryOptions with
  | None => false
  | Some o =>
      match o !! "except" with
      | None => false
      | Some c => existsb (patternIs s) (comparisonItems c)
      end
  end.

End Vocabulary.

Section RuleVocabulary.
Context `{Tree : TreeProvider} `{Utils : !Collaborators}.

(** Section 4.2, step 4: "the statement is AtRuleLike", "none of its direct
    children are declarations", "the statement's serialized body spans more
    than one line". *)
Definition isAtRule (statement : Statement) : bool :=
  String.eqb (statement_type statement) "atrule".

Definition noDeclarationChild (statement : Statement) : bool :=
  match statement_nodes statement with
  | Some children =>
      forallb (fun child => negb (String.eqb (node_type child) "decl")) children
  | None => true
  end.

Definition spansSeveralLines (statement : Statement) : bool :=
  negb (isSingleLineString (blockString statement)).

(** The same collaborators with another blank-line test. *)
Definition withHasEmptyLine (inspect : string → bool) : Collaborators := {|
  ruleMessages := ruleMessages;
  blockString := blockString;
  isSingleLineString := isSingleLineString;
  hasEmptyLine := inspect;
  addEmptyLineAfter := addEmptyLineAfter;
  removeEmptyLinesAfter := removeEmptyLinesAfter
|}.

End RuleVocabulary.

(** The engine returns, as element 0 of a match, a piece of the string it
    was run on (ECMAScript, RegExpBuiltinExec). *)
Class EngineSlices `{RegExpEngine} : Prop :=
  exec_slice : ∀ r value h m h',
    RegExp_exec r value h = (Some m, h') → contiguousSlice m value.

(** ** A small engine and a small tree, for concrete runs

    [Mini] understands pattern texts made of ordinary characters with an
    optional leading [^]; it rejects every other text, as the runtime
    rejects an unterminated group.  Its heap is the list of the calls it
    served, so a run shows which tests were evaluated. *)
Module Mini.

Record regex : Type := mkRegex {
  anchored : bool;
  literal : string;
  ignoreCase : bool
}.

Inductive call : Type :=
| New (pattern flags : string)
| Exec (r : regex) (value : string).

Definition metachars : list ascii :=
  ["\"; "^"; "$"; "."; "*"; "+"; "?"; "("; ")"; "["; "]"; "{"; "}"; "|"]%char.

Fixpoint plain (s : string) : bool :=
  match s with
  | EmptyString => true
  | String c rest => negb (existsb (Ascii.eqb c) metachars) && plain rest
  end.

Definition parseFlags (flags : string) : option bool :=
  match flags with
  | EmptyString => Some false
  | String c EmptyString => if Ascii.eqb c letter_i then Some true else None
  | _ => None
  end.

Definition compile (pattern flags : string) : Js.Completion regex :=
  match parseFlags flags with
  | None => Js.Throw (Js.SyntaxError "Invalid flags supplied to RegExp constructor")
  | Some ic =>
      let (anch, body) :=
        match pattern with
        | String c rest =>
            if Ascii.eqb c "^" then (true, rest) else (false, pattern)
        | EmptyString => (false, pattern)
        end in
      if plain body then Js.Normal (mkRegex anch body ic)
      else Js.Throw (Js.SyntaxError "Invalid regular expression")
  end.

Definition sameChar (fold : bool) (a b : ascii) : bool :=
  if fold then Ascii.eqb (Js.lowerChar a) (Js.lowerChar b) else Ascii.eqb a b.

(** The prefix of [s] that [lit] matches, if it matches at the start. *)
Fixpoint matchHere (fold : bool) (lit s : string) : option string :=
  match lit, s with
  | EmptyString, _ => Some EmptyString
  | String _ _, EmptyString => None
  | String a lit', String b s' =>
      if sameChar fold a b
      then option_map (String b) (matchHere fold lit' s')
      else None
  end.

(** The leftmost match. *)
Fixpoint search (fold : bool) (lit s : string) : option string :=
  match matchHere fold lit s with
  | Some m => Some m
  | None =>
      match s with
      | EmptyString => None
      | String _ s' => search fold lit s'
      end
  end.

Definition run (r : regex) (value : string) : option string :=
  if anchored r then matchHere (ignoreCase r) (literal r) value
  else search (ignoreCase r) (literal r) value.

Definition engine : RegExpEngine := {|
  RegExp := regex;
  Heap := list call;
  RegExp_new := fun pattern flags h =>
    (compile pattern flags, h ++ [New pattern flags]);
  RegExp_exec := fun r value h => (run r value, h ++ [Exec r value])
|}.

End Mini.

(** A statement as far as [check] looks at it: [toString()] is
    [selector { body after }]. *)
Module Sheet.

Record statement : Type := mkStatement {
  type : string;
  selector : string;
  body : string;
  children : option (list string);
  after : option string
}.

Definition text (o : option string) : string :=
  match o with
  | Some s => s
  | None => EmptyString
  end.

Definition block (st : statement) : string :=
  match children st with
  | Some _ => "{" +:+ body st +:+ text (after st) +:+ "}"
  | None => EmptyString
  end.

Definition tree : TreeProvider := {|
  Statement := statement;
  ChildNode := string;
  statement_type := type;
  statement_nodes := children;
  node_type := fun t => t;
  raws_after := after;
  toString := fun st => selector st +:+ block st
|}.

Definition isLineBreak (c : ascii) : bool := Ascii.eqb c LF || Ascii.eqb c CR.

(** Modelled from the spec: [isSingleLineString] of [utils/text] is not
    among the sources; section 4.2 step 4 asks whether the text "spans more
    than one line". *)
Fixpoint singleLine (s : string) : bool :=
  match s with
  | EmptyString => true
  | String c rest => negb (isLineBreak c) && singleLine rest
  end.

Fixpoint skipCR (s : string) : string :=
  match s with
  | EmptyString => EmptyString
  | String c rest => if Ascii.eqb c CR then skipCR rest else s
  end.

Definition startsWithLF (s : string) : bool :=
  match s with
  | EmptyString => false
  | String c _ => Ascii.eqb c LF
  end.

(** Modelled from the spec: [hasEmptyLine] of [utils/ast] is not among the
    sources; section 4.2 step 5: "two or more line breaks, tolerant of
    optional carriage returns before each line break". *)
Fixpoint emptyLine (s : string) : bool :=
  match s with
  | EmptyString => false
  | String c rest =>
      (Ascii.eqb c LF && startsWithLF (skipCR rest)) || emptyLine rest
  end.

(** Modelled from the spec: the two primitives of [utils/fix] are not among
    the sources; section 6: each mutates "only the statement's
    trailing-whitespace field". *)
Definition setAfter (st : statement) (s : string) : statement :=
  mkStatement (type st) (selector st) (body st) (children st) (Some s).

Definition insertBlankLine (st : statement) (nl : string) : statement :=
  setAfter st (nl +:+ nl +:+ text (after st)).

Definition removeBlankLines (st : statement) (nl : string) : statement :=
  setAfter st nl.

(** stylelint's [ruleMessages] appends the rule name to each text. *)
Definition decorate (name : string) (m : Messages) : Messages :=
  mkMessages (expected m +:+ " (" +:+ name +:+ ")")
             (rejected m +:+ " (" +:+ name +:+ ")").

Definition utils : @Collaborators tree := {|
  ruleMessages := decorate;
  blockString := block : @Statement tree → string;
  isSingleLineString := singleLine;
  hasEmptyLine := emptyLine;
  addEmptyLineAfter := insertBlankLine : @Statement tree → string → @Statement tree;
  removeEmptyLinesAfter := removeBlankLines : @Statement tree → string → @Statement tree
|}.

Definition nl : string := String LF EmptyString.

(** [.a { color: red; }] over three lines, no blank line before the brace. *)
Definition multiLineRule : statement :=
  mkStatement "rule" ".a " (nl +:+ "  color: red;") (Some ["decl"]) (Some nl).

(** The same with two stray semicolons, each on a line of its own. *)
Definition straySemicolons : statement :=
  mkStatement "rule" ".a " (nl +:+ "  color: red;") (Some ["decl"])
              (Some (";" +:+ nl +:+ ";" +:+ nl)).

(** [@media print { .a { color: red; } }]: an at-rule without declarations
    among its direct children. *)
Definition mediaRule : statement :=
  mkStatement "atrule" "@media print " (nl +:+ "  .a { color: red; }")
              (Some ["rule"]) (Some nl).

Definition exceptAfterClosingBrace : option (gmap string (@Comparison Mini.engine)) :=
  Some {[ "except" := CArray [PString "after-closing-brace"] ]}.

End Sheet.

(** ** Kinds of comparison elements *)
Section ComparisonKinds.
Context `{Engine : RegExpEngine}.

(** A comparison element given as a string. *)
Definition stringPattern (p : Pattern) : bool :=
  match p with
  | PString _ => true
  | PRegExp _ => false
  end.

(** A comparison element that is compared literally, and one that is taken
    for a regular expression written in a string. *)
Definition literalPattern (p : Pattern) : bool :=
  match p with
  | PString c => negb (comparisonIsRegex c)
  | PRegExp _ => false
  end.

Definition conventionPattern (p : Pattern) : bool :=
  match p with
  | PString c => comparisonIsRegex c
  | PRegExp _ => false
  end.

(** The first input element that is one of the comparison strings. *)
Definition firstAmong (inputs : list string) (ps : list Pattern)
  : option string :=
  find (fun v => existsb (patternIs v) ps) inputs.

End ComparisonKinds.

(** * Properties *)

(** ** Strings and indices *)

Module StringFacts.

Lemma app_nil (t : string) : EmptyString +:+ t = t.
Proof. reflexivity. Qed.

Lemma app_cons (a : ascii) (s t : string) :
  String a s +:+ t = String a (s +:+ t).
Proof. reflexivity. Qed.

Lemma app_length (s t : string) :
  String.length (s +:+ t) = (String.length s + String.length t)%nat.
Proof.
  induction s as [|a s IH]; [reflexivity|].
  rewrite app_cons. simpl. now rewrite IH.
Qed.

Lemma app_empty_r (s : string) : s +:+ EmptyString = s.
Proof.
  induction s as [|a s IH]; [reflexivity|]. now rewrite app_cons, IH.
Qed.

Lemma app_assoc (s t u : string) : (s +:+ t) +:+ u = s +:+ t +:+ u.
Proof.
  induction s as [|a s IH]; [reflexivity|]. now rewrite !app_cons, IH.
Qed.

Lemma get_app_at (front : string) (a : ascii) (rest : string) :
  String.get (String.length front) (front +:+ String a rest) = Some a.
Proof.
  induction front as [|b front IH]; [reflexivity|].
  rewrite app_cons. simpl. exact IH.
Qed.

Lemma get_split (n : nat) (s : string) (a : ascii) :
  String.get n s = Some a →
  ∃ front rest, s = front +:+ String a rest ∧ String.length front = n.
Proof.
  revert n. induction s as [|b s IH]; intros n Hget; simpl in Hget.
  - discriminate.
  - destruct n as [|n].
    + injection Hget as ->. now exists EmptyString, s.
    + destruct (IH n Hget) as (front & rest & -> & Hlen).
      exists (String b front), rest. rewrite app_cons. simpl.
      now rewrite Hlen.
Qed.

Lemma substring_prefix (m q : string) :
  String.substring 0 (String.length m) (m +:+ q) = m.
Proof.
  induction m as [|b m IHm].
  - now destruct q.
  - rewrite app_cons. simpl. now rewrite IHm.
Qed.

Lemma substring_middle (p m q : string) :
  String.substring (String.length p) (String.length m) (p +:+ m +:+ q) = m.
Proof.
  induction p as [|a p IH].
  - exact (substring_prefix m q).
  - rewrite app_cons. simpl. exact IH.
Qed.

Lemma charIs_true (o : option ascii) (a : ascii) :
  Js.charIs o a = true ↔ o = Some a.
Proof.
  destruct o as [b|]; simpl.
  - rewrite Ascii.eqb_eq. split; congruence.
  - split; discriminate.
Qed.

Lemma charAt_nat (s : string) (n : nat) :
  Js.charAt s (Z.of_nat n) = String.get n s.
Proof.
  unfold Js.charAt. destruct (Z.ltb_spec (Z.of_nat n) 0); [lia|].
  now rewrite Nat2Z.id.
Qed.

Lemma charAt_negative (s : string) (i : Z) : i < 0 → Js.charAt s i = None.
Proof.
  intros Hi. unfold Js.charAt. destruct (Z.ltb_spec i 0); [reflexivity | lia].
Qed.

End StringFacts.

Section ConventionFacts.
Import StringFacts.

Lemma first_char_spec (c : string) (a : ascii) :
  firstComparisonChar c = Some a ↔ firstCharIs a c.
Proof.
  unfold firstComparisonChar, firstCharIs. change 0 with (Z.of_nat 0).
  rewrite charAt_nat. destruct c as [|b c]; simpl.
  - split; [discriminate | intros [rest H]; discriminate].
  - split.
    + intros [= ->]. now exists c.
    + intros [rest [= -> _]]. reflexivity.
Qed.

Lemma last_char_spec (c : string) (a : ascii) :
  lastComparisonChar c = Some a ↔ lastCharIs a c.
Proof.
  unfold lastComparisonChar, lastCharIs, Js.length. split.
  - intros H. destruct c as [|b c]; [discriminate|].
    replace (Z.of_nat (String.length (String b c)) - 1)
      with (Z.of_nat (String.length c)) in H by (simpl; lia).
    rewrite charAt_nat in H.
    destruct (get_split _ _ _ H) as (front & rest & Heq & Hlen).
    assert (Hrest : rest = EmptyString).
    { apply (f_equal String.length) in Heq. rewrite app_length in Heq.
      simpl in Heq. destruct rest; [reflexivity | simpl in Heq; lia]. }
    subst rest. now exists front.
  - intros [front ->]. rewrite app_length. simpl.
    replace (Z.of_nat (String.length front + 1) - 1)
      with (Z.of_nat (String.length front)) by lia.
    rewrite charAt_nat. apply get_app_at.
Qed.

Lemma second_to_last_char_spec (c : string) (a : ascii) :
  secondToLastComparisonChar c = Some a ↔ secondToLastCharIs a c.
Proof.
  unfold secondToLastComparisonChar, secondToLastCharIs, Js.length. split.
  - intros H.
    destruct (Z.ltb_spec (Z.of_nat (String.length c) - 2) 0) as [Hneg|Hpos].
    { rewrite charAt_negative in H by exact Hneg. discriminate. }
    replace (Z.of_nat (String.length c) - 2)
      with (Z.of_nat (String.length c - 2)) in H by lia.
    rewrite charAt_nat in H.
    destruct (get_split _ _ _ H) as (front & rest & Heq & Hlen).
    apply (f_equal String.length) in Heq as Hl. rewrite app_length in Hl.
    simpl in Hl.
    destruct rest as [|b [|b' rest]]; simpl in Hl; try lia.
    now exists front, b.
  - intros (front & b & ->). rewrite app_length. simpl.
    replace (Z.of_nat (String.length front + 2) - 2)
      with (Z.of_nat (String.length front)) by lia.
    rewrite charAt_nat. apply get_app_at.
Qed.

Lemma comparisonIsRegex_spec (c : string) :
  comparisonIsRegex c = true ↔ embeddedRegexConvention c.
Proof.
  unfold comparisonIsRegex, embeddedRegexConvention.
  rewrite andb_true_iff, orb_true_iff, andb_true_iff, !charIs_true.
  now rewrite first_char_spec, !last_char_spec, second_to_last_char_spec.
Qed.

End ConventionFacts.

(** ** The leaf test *)

Section LeafFacts.
Context `{Engine : RegExpEngine}.
Import StringFacts.

Lemma last_char_unique (c : string) (a b : ascii) :
  lastCharIs a c → lastCharIs b c → a = b.
Proof.
  rewrite <- !last_char_spec. congruence.
Qed.

(** The strings of length at least 2 that meet the convention. *)
Lemma convention_shapes (c : string) :
  (2 ≤ String.length c)%nat →
  embeddedRegexConvention c →
  (∃ inner, c = "/" +:+ inner +:+ "/") ∨
  (∃ inner, c = "/" +:+ inner +:+ "/i") ∨
  c = "/i".
Proof.
  intros Hlen [[rest Hfirst] Hlast]. subst c.
  destruct Hlast as [[front Hfront] | [(front & b & Hfront) Hi]].
  - left. destruct front as [|x front].
    + rewrite app_nil in Hfront. injection Hfront as ->. simpl in Hlen. lia.
    + rewrite app_cons in Hfront. injection Hfront as _ ->. now exists front.
  - right.
    assert (Hb : b = letter_i).
    { apply (last_char_unique (String slash rest)); [|exact Hi].
      exists (front +:+ String slash EmptyString).
      now rewrite app_assoc, app_cons, app_nil. }
    subst b. destruct front as [|x front].
    + right. rewrite app_nil in Hfront. now injection Hfront as ->.
    + left. rewrite app_cons in Hfront. injection Hfront as _ ->.
      now exists front.
Qed.

Lemma slash_slash_is_regex (inner : string) :
  comparisonIsRegex ("/" +:+ inner +:+ "/") = true ∧
  hasCaseInsensitiveFlag ("/" +:+ inner +:+ "/") = false ∧
  Js.slice ("/" +:+ inner +:+ "/") 1 (-1) = inner.
Proof.
  assert (Hlast : lastComparisonChar ("/" +:+ inner +:+ "/") = Some slash).
  { apply last_char_spec. exists ("/" +:+ inner). now rewrite app_assoc. }
  repeat split.
  - apply comparisonIsRegex_spec. split; [now exists (inner +:+ "/")|].
    left. now apply last_char_spec.
  - unfold hasCaseInsensitiveFlag. rewrite Hlast. apply andb_false_r.
  - unfold Js.slice, Js.relIndex, Js.length. rewrite !app_length.
    change (String.length "/") with 1%nat.
    change (1 <? 0) with false. change (-1 <? 0) with true. cbv iota.
    replace (Z.to_nat (Z.min 1 _)) with 1%nat by lia.
    replace (Z.to_nat (Z.max _ 0)) with (String.length inner) by lia.
    exact (substring_middle "/" inner "/").
Qed.

Lemma slash_slash_i_is_regex (inner : string) :
  comparisonIsRegex ("/" +:+ inner +:+ "/i") = true ∧
  hasCaseInsensitiveFlag ("/" +:+ inner +:+ "/i") = true ∧
  Js.slice ("/" +:+ inner +:+ "/i") 1 (-2) = inner.
Proof.
  assert (Hlast : lastComparisonChar ("/" +:+ inner +:+ "/i") = Some letter_i).
  { apply last_char_spec. exists ("/" +:+ inner +:+ "/").
    now rewrite !app_assoc. }
  assert (Hreg : comparisonIsRegex ("/" +:+ inner +:+ "/i") = true).
  { apply comparisonIsRegex_spec. split; [now exists (inner +:+ "/i")|].
    right. split; [|now apply last_char_spec].
    exists ("/" +:+ inner), letter_i. now rewrite app_assoc. }
  repeat split.
  - exact Hreg.
  - unfold hasCaseInsensitiveFlag. now rewrite Hreg, Hlast.
  - unfold Js.slice, Js.relIndex, Js.length. rewrite !app_length.
    change (String.length "/") with 1%nat.
    change (String.length "/i") with 2%nat.
    change (1 <? 0) with false. change (-2 <? 0) with true. cbv iota.
    replace (Z.to_nat (Z.min 1 _)) with 1%nat by lia.
    replace (Z.to_nat (Z.max _ 0)) with (String.length inner) by lia.
    exact (substring_middle "/" inner "/i").
Qed.

(** The regex branch of the leaf test, for a comparison that meets the
    convention. *)
Lemma regex_branch (value c : string) (h : Heap) :
  comparisonIsRegex c = true →
  testAgainstStringOrRegExp value (PString c) h =
  viaRegExp (Js.slice c 1 (if hasCaseInsensitiveFlag c then -2 else -1))
            (if hasCaseInsensitiveFlag c then "i" else EmptyString)
            value c h.
Proof.
  intros Hreg. unfold viaRegExp, testAgainstStringOrRegExp. rewrite Hreg.
  unfold bind, newRegExp, exec, ret.
  destruct (hasCaseInsensitiveFlag c); cbv iota.
  - destruct (RegExp_new _ _ h) as [[r|e] h1]; [|reflexivity].
    now destruct (RegExp_exec r value h1) as [[m0|] h2].
  - destruct (RegExp_new _ _ h) as [[r|e] h1]; [|reflexivity].
    now destruct (RegExp_exec r value h1) as [[m0|] h2].
Qed.

(** The native-regex branch calls [exec] on the value. *)
Lemma native_branch_applied (r : RegExp) (value : string) (h : Heap) :
  testAgainstStringOrRegExp value (PRegExp r) h =
  applied r value (PRegExp r) h.
Proof.
  unfold testAgainstStringOrRegExp, applied, bind, exec, ret.
  destruct (RegExp_exec r value h) as [[m0|] h1]; [|reflexivity].
  now destruct m0.
Qed.

Lemma viaRegExp_applied (inner flags value c : string) (h : Heap) :
  viaRegExp inner flags value c h = compiledAndApplied inner flags value c h.
Proof.
  unfold viaRegExp, compiledAndApplied, bind, newRegExp.
  destruct (RegExp_new inner flags h) as [[r|e] h1]; [|reflexivity].
  rewrite native_branch_applied. unfold applied, ret.
  now destruct (RegExp_exec r value h1) as [[m0|] h2].
Qed.

(** The literal branch, for a comparison that does not. *)
Lemma literal_branch (value c : string) (h : Heap) :
  comparisonIsRegex c = false →
  testAgainstStringOrRegExp value (PString c) h =
  (Js.Normal (literalComparison value c), h).
Proof.
  intros Hlit. unfold testAgainstStringOrRegExp. now rewrite Hlit.
Qed.

End LeafFacts.

(** C1.  For a comparison string of length at least 2, the leaf test takes
    the regex branch exactly when the string meets the embedded-regex
    convention of the specification (first character [/], and last character
    [/] or second-to-last [/] with last [i]).  Such a string is [/inner/],
    [/inner/i] or [/i]; the regex is built from [inner] (from the empty text
    for [/i]), with the flag [i] exactly when the string ends in [i], and is
    run on the value as the native-regex branch runs a regex: [exec] is
    called on the value, a match gives the result object with the value as
    [match], the comparison as [pattern] and element 0 of the match as
    [substring], and [null] gives NoMatch.  A string that does not meet the
    convention is compared literally. *)
Theorem embedded_regex_convention `{Engine : RegExpEngine} (c : string) :
  (2 ≤ String.length c)%nat →
  (comparisonIsRegex c = true ↔ embeddedRegexConvention c) ∧
  (embeddedRegexConvention c →
   (∃ inner, c = "/" +:+ inner +:+ "/") ∨
   (∃ inner, c = "/" +:+ inner +:+ "/i") ∨
   c = "/i") ∧
  (∀ inner value h, c = "/" +:+ inner +:+ "/" →
     testAgainstStringOrRegExp value (PString c) h =
     viaRegExp inner EmptyString value c h) ∧
  (∀ inner value h, c = "/" +:+ inner +:+ "/i" →
     testAgainstStringOrRegExp value (PString c) h =
     viaRegExp inner "i" value c h) ∧
  (∀ value h, c = "/i" →
     testAgainstStringOrRegExp value (PString c) h =
     viaRegExp EmptyString "i" value c h) ∧
  (∀ value h, ¬ embeddedRegexConvention c →
     testAgainstStringOrRegExp value (PString c) h =
     (Js.Normal (literalComparison value c), h)) ∧
  (∀ r value h,
     testAgainstStringOrRegExp value (PRegExp r) h =
     applied r value (PRegExp r) h) ∧
  (∀ inner value h, c = "/" +:+ inner +:+ "/" →
     testAgainstStringOrRegExp value (PString c) h =
     compiledAndApplied inner EmptyString value c h) ∧
  (∀ inner value h, c = "/" +:+ inner +:+ "/i" →
     testAgainstStringOrRegExp value (PString c) h =
     compiledAndApplied inner "i" value c h) ∧
  (∀ value h, c = "/i" →
     testAgainstStringOrRegExp value (PString c) h =
     compiledAndApplied EmptyString "i" value c h).
Proof.
  intros Hlen.
  assert (Hslash : ∀ inner value h, c = "/" +:+ inner +:+ "/" →
    testAgainstStringOrRegExp value (PString c) h =
    viaRegExp inner EmptyString value c h).
  { intros inner value h ->.
    destruct (slash_slash_is_regex inner) as (Hreg & Hflag & Hslice).
    rewrite regex_branch by exact Hreg. now rewrite Hflag, Hslice. }
  assert (Hslash_i : ∀ inner value h, c = "/" +:+ inner +:+ "/i" →
    testAgainstStringOrRegExp value (PString c) h =
    viaRegExp inner "i" value c h).
  { intros inner value h ->.
    destruct (slash_slash_i_is_regex inner) as (Hreg & Hflag & Hslice).
    rewrite regex_branch by exact Hreg. now rewrite Hflag, Hslice. }
  assert (Hi : ∀ value h, c = "/i" →
    testAgainstStringOrRegExp value (PString c) h =
    viaRegExp EmptyString "i" value c h).
  { intros value h ->. now rewrite regex_branch by reflexivity. }
  split; [apply comparisonIsRegex_spec|].
  split; [now apply convention_shapes|].
  split; [exact Hslash|]. split; [exact Hslash_i|]. split; [exact Hi|].
  split; [|split; [|split; [|split]]].
  - intros value h Hnot. apply literal_branch.
    destruct (comparisonIsRegex c) eqn:Hreg; [|reflexivity].
    now apply comparisonIsRegex_spec in Hreg.
  - apply native_branch_applied.
  - intros inner value h Hc. rewrite <- viaRegExp_applied. now apply Hslash.
  - intros inner value h Hc. rewrite <- viaRegExp_applied.
    now apply Hslash_i.
  - intros value h Hc. rewrite <- viaRegExp_applied. now apply Hi.
Qed.

Lemma embedded_regex_convention_witness :
  (2 ≤ String.length "/^f/i")%nat ∧
  @testAgainstStringOrRegExp Mini.engine "FOO" (PString "/^f/i") [] =
  (Js.Normal (Some (mkMatch "FOO" (PString "/^f/i") "F")),
   [Mini.New "^f" "i"; Mini.Exec (Mini.mkRegex true "f" true) "FOO"]) ∧
  @testAgainstStringOrRegExp Mini.engine "bar" (PString "/^f/i") [] =
  (Js.Normal None,
   [Mini.New "^f" "i"; Mini.Exec (Mini.mkRegex true "f" true) "bar"]).
Proof.
  assert (Hlen : (2 ≤ String.length "/^f/i")%nat) by (simpl; lia).
  split; [exact Hlen|].
  destruct (@embedded_regex_convention Mini.engine "/^f/i" Hlen)
    as (_ & _ & _ & _ & _ & _ & _ & _ & Hi & _).
  split; (rewrite (Hi "^f"); reflexivity).
Defined.

(** C2, as the code has it.  A comparison string shorter than 2 characters
    is looked up at index [length - 2], which lies before the string and
    yields [undefined]; nothing is thrown.  Every such string except the
    one-character string [/] is compared literally: it matches a value
    exactly when the value equals it.  The string [/] meets the convention
    (its first character is also its last) and is run as the regular
    expression built from the empty text. *)
Theorem short_comparison `{Engine : RegExpEngine} (c : string) :
  (String.length c < 2)%nat →
  secondToLastComparisonChar c = None ∧
  (c ≠ "/" →
   ∀ value h,
     testAgainstStringOrRegExp value (PString c) h =
     (Js.Normal (literalComparison value c), h) ∧
     (truthy (literalComparison value c) = true ↔ value = c)) ∧
  (c = "/" →
   ∀ value h,
     testAgainstStringOrRegExp value (PString c) h =
     viaRegExp EmptyString EmptyString value c h).
Proof.
  intros Hlen.
  destruct c as [|a [|b c]]; [| |simpl in Hlen; lia]; (split; [reflexivity|]).
  - split; [|discriminate]. intros _ value h. split; [reflexivity|].
    unfold literalComparison.
    destruct (String.eqb_spec value EmptyString); simpl; split; congruence.
  - split.
    + intros Hne value h.
      assert (Hlit : comparisonIsRegex (String a EmptyString) = false).
      { unfold comparisonIsRegex, firstComparisonChar, lastComparisonChar.
        simpl. destruct (Ascii.eqb_spec a slash) as [->|]; [|reflexivity].
        now contradiction Hne. }
      split; [now apply literal_branch|].
      unfold literalComparison.
      destruct (String.eqb_spec value (String a EmptyString)); simpl;
        split; congruence.
    + intros [= ->] value h. now rewrite regex_branch by reflexivity.
Qed.

Lemma short_comparison_witness :
  (String.length "a" < 2)%nat ∧
  ∀ value h,
    @testAgainstStringOrRegExp Mini.engine value (PString "a") h =
    (Js.Normal (literalComparison value "a"), h).
Proof.
  assert (Hlen : (String.length "a" < 2)%nat) by (simpl; lia).
  split; [exact Hlen|].
  destruct (@short_comparison Mini.engine "a" Hlen) as (_ & Hliteral & _).
  intros value h. apply Hliteral. discriminate.
Defined.

(** C2, as stated, fails for the lone [/]: it is shorter than 2 characters,
    yet it is taken for a regex and matches the value [a], which differs
    from it. *)
Lemma lone_slash_matches_everything :
  (String.length "/" < 2)%nat ∧
  comparisonIsRegex "/" = true ∧
  "a" ≠ "/" ∧
  fst (@testAgainstStringOrRegExp Mini.engine "a" (PString "/") []) =
  Js.Normal (Some (mkMatch "a" (PString "/") EmptyString)).
Proof.
  split; [simpl; lia|]. split; [reflexivity|]. split; [discriminate|].
  reflexivity.
Qed.

(** C8, as the code has it.  A literal string (one that does not meet the
    embedded-regex convention, [comparisonIsRegex_spec]) matches itself with
    [substring] equal to it, and a literal string [t] different from [s]
    does not match [s]; nor does [s], as a comparison, match any other
    value. *)
Theorem literal_matches_itself_only `{Engine : RegExpEngine} (s : string) :
  comparisonIsRegex s = false →
  (∀ h, matchesStringOrRegExp (IString s) (COne (PString s)) h =
        (Js.Normal (Some (mkMatch s (PString s) s)), h)) ∧
  (∀ t h, comparisonIsRegex t = false → t ≠ s →
          matchesStringOrRegExp (IString s) (COne (PString t)) h =
          (Js.Normal None, h)) ∧
  (∀ t h, t ≠ s →
          matchesStringOrRegExp (IString t) (COne (PString s)) h =
          (Js.Normal None, h)).
Proof.
  intros Hs. split; [|split].
  - intros h. unfold matchesStringOrRegExp, testAgainstStringOrRegExpOrArray.
    rewrite literal_branch by exact Hs.
    unfold literalComparison. now rewrite String.eqb_refl.
  - intros t h Ht Hne.
    unfold matchesStringOrRegExp, testAgainstStringOrRegExpOrArray.
    rewrite literal_branch by exact Ht.
    unfold literalComparison.
    destruct (String.eqb_spec s t) as [->|]; [now contradiction Hne|].
    reflexivity.
  - intros t h Hne.
    unfold matchesStringOrRegExp, testAgainstStringOrRegExpOrArray.
    rewrite literal_branch by exact Hs.
    unfold literalComparison.
    destruct (String.eqb_spec t s) as [->|]; [now contradiction Hne|].
    reflexivity.
Qed.

Lemma literal_matches_itself_only_witness :
  comparisonIsRegex "foo" = false ∧
  (∀ h, @matchesStringOrRegExp Mini.engine (IString "foo")
          (COne (PString "foo")) h =
        (Js.Normal (Some (mkMatch "foo" (PString "foo") "foo")), h)) ∧
  (∀ h, @matchesStringOrRegExp Mini.engine (IString "foo")
          (COne (PString "bar")) h = (Js.Normal None, h)).
Proof.
  assert (Hfoo : comparisonIsRegex "foo" = false) by reflexivity.
  split; [exact Hfoo|].
  destruct (@literal_matches_itself_only Mini.engine "foo" Hfoo)
    as (Hsame & Hother & _).
  split; [exact Hsame|].
  intros h. apply Hother; [reflexivity | discriminate].
Defined.

(** C8, as stated, fails when [t] meets the convention: [a] is a literal
    string, [/a/] differs from it, and [matches("a", "/a/")] succeeds. *)
Lemma regex_string_matches_other_string :
  comparisonIsRegex "a" = false ∧
  "/a/" ≠ "a" ∧
  fst (@matchesStringOrRegExp Mini.engine (IString "a")
         (COne (PString "/a/")) []) =
  Js.Normal (Some (mkMatch "a" (PString "/a/") "a")).
Proof.
  split; [reflexivity|]. split; [discriminate|]. reflexivity.
Qed.

(** The examples of section 8 of the specification, on the small engine. *)
Example matches_foo_prefix :
  fst (@matchesStringOrRegExp Mini.engine (IString "foo")
         (COne (PString "/^f/")) []) =
  Js.Normal (Some (mkMatch "foo" (PString "/^f/") "f")).
Proof. reflexivity. Qed.

Example matches_FOO_prefix_ignoring_case :
  fst (@matchesStringOrRegExp Mini.engine (IString "FOO")
         (COne (PString "/^f/i")) []) =
  Js.Normal (Some (mkMatch "FOO" (PString "/^f/i") "F")).
Proof. reflexivity. Qed.

Example no_match_FOO_prefix :
  fst (@matchesStringOrRegExp Mini.engine (IString "FOO")
         (COne (PString "/^f/")) []) = Js.Normal None.
Proof. reflexivity. Qed.

(** ** Sequences: the two loops as one pass over the pairs *)

Section LoopFacts.
Context `{Engine : RegExpEngine}.

Lemma firstHit_app_miss (front back : list (string * Pattern)) (h h1 : Heap) :
  misses front h h1 → firstHit (front ++ back) h = firstHit back h1.
Proof.
  induction 1 as [h | v p rest h h1 h2 Htest _ IH]; [reflexivity|].
  simpl. unfold bind. now rewrite Htest.
Qed.

Lemma firstHit_miss (pairs : list (string * Pattern)) (h h' : Heap) :
  firstHit pairs h = (Js.Normal None, h') ↔ misses pairs h h'.
Proof.
  split.
  - revert h. induction pairs as [|[v p] rest IH]; intros h Hrun.
    + injection Hrun as <-. constructor.
    + simpl in Hrun. unfold bind in Hrun.
      destruct (testAgainstStringOrRegExp v p h) as [[[m|]|e] h1] eqn:Htest;
        try discriminate.
      econstructor; [exact Htest | now apply IH].
  - intros Hmiss. rewrite <- (app_nil_r pairs).
    now rewrite (firstHit_app_miss _ _ _ _ Hmiss).
Qed.

Lemma firstHit_hit (pairs : list (string * Pattern)) (h h' : Heap) (m : Match) :
  firstHit pairs h = (Js.Normal (Some m), h') ↔
  ∃ front v p back h1,
    pairs = front ++ (v, p) :: back ∧
    misses front h h1 ∧
    testAgainstStringOrRegExp v p h1 = (Js.Normal (Some m), h').
Proof.
  split.
  - revert h. induction pairs as [|[v p] rest IH]; intros h Hrun.
    + discriminate.
    + simpl in Hrun. unfold bind in Hrun.
      destruct (testAgainstStringOrRegExp v p h) as [[[m1|]|e] h1] eqn:Htest;
        try discriminate.
      * injection Hrun as -> ->.
        exists [], v, p, rest, h. repeat split; [constructor | exact Htest].
      * destruct (IH _ Hrun) as (front & v' & p' & back & h2 & -> & Hm & Ht).
        exists ((v, p) :: front), v', p', back, h2.
        repeat split; [econstructor; eassumption | exact Ht].
  - intros (front & v & p & back & h1 & -> & Hmiss & Htest).
    rewrite (firstHit_app_miss _ _ _ _ Hmiss). simpl. unfold bind.
    now rewrite Htest.
Qed.

Lemma firstHit_throw (front back : list (string * Pattern)) (v : string)
  (p : Pattern) (h h1 h' : Heap) (e : Js.Error) :
  misses front h h1 →
  testAgainstStringOrRegExp v p h1 = (Js.Throw e, h') →
  firstHit (front ++ (v, p) :: back) h = (Js.Throw e, h').
Proof.
  intros Hmiss Htest. rewrite (firstHit_app_miss _ _ _ _ Hmiss). simpl.
  unfold bind. now rewrite Htest.
Qed.

(** The inner loop is the pass over one row of pairs. *)
Lemma forComparisonItems_firstHit (value : string) (ps : list Pattern) (h : Heap) :
  forComparisonItems value ps h = firstHit (map (pair value) ps) h.
Proof.
  revert h. induction ps as [|p ps IH]; intros h; [reflexivity|].
  simpl. unfold bind.
  destruct (testAgainstStringOrRegExp value p h) as [[[m|]|e] h1];
    [reflexivity | apply IH | reflexivity].
Qed.

Lemma testAgainstStringOrRegExpOrArray_firstHit (value : string)
  (comparison : Comparison) (h : Heap) :
  testAgainstStringOrRegExpOrArray value comparison h =
  firstHit (map (pair value) (comparisonItems comparison)) h.
Proof.
  destruct comparison as [p|ps]; [|apply forComparisonItems_firstHit].
  simpl. unfold bind.
  now destruct (testAgainstStringOrRegExp value p h) as [[[m|]|e] h1].
Qed.

(** A pass over [row ++ more] is the pass over [row] and, if that misses,
    the pass over [more]. *)
Lemma firstHit_app (row more : list (string * Pattern)) (h : Heap) :
  firstHit (row ++ more) h =
  match firstHit row h with
  | (Js.Normal None, h1) => firstHit more h1
  | other => other
  end.
Proof.
  revert h. induction row as [|[v p] row IH]; intros h; [reflexivity|].
  simpl. unfold bind.
  destruct (testAgainstStringOrRegExp v p h) as [[[m|]|e] h1];
    [reflexivity | apply IH | reflexivity].
Qed.

Lemma forInputItems_firstHit (ss : list string) (comparison : Comparison)
  (h : Heap) :
  forInputItems ss comparison h =
  firstHit (pairsInOrder (IArray ss) comparison) h.
Proof.
  unfold pairsInOrder. simpl inputItems.
  revert h. induction ss as [|s ss IH]; intros h; [reflexivity|].
  simpl. rewrite firstHit_app, <- testAgainstStringOrRegExpOrArray_firstHit.
  unfold bind.
  destruct (testAgainstStringOrRegExpOrArray s comparison h)
    as [[[m|]|e] h1]; [reflexivity | apply IH | reflexivity].
Qed.

Lemma matches_firstHit (input : Input) (comparison : Comparison) (h : Heap) :
  matchesStringOrRegExp input comparison h =
  firstHit (pairsInOrder input comparison) h.
Proof.
  destruct input as [s|ss]; [|apply forInputItems_firstHit].
  unfold pairsInOrder. simpl. rewrite app_nil_r.
  apply testAgainstStringOrRegExpOrArray_firstHit.
Qed.

(** A hit reports the value tested and the comparison it was tested
    against. *)
Lemma hit_fields (v : string) (p : Pattern) (h h' : Heap) (m : Match) :
  testAgainstStringOrRegExp v p h = (Js.Normal (Some m), h') →
  match_ m = v ∧ pattern m = p.
Proof.
  destruct p as [c|r]; simpl; unfold bind, newRegExp, exec, ret.
  - destruct (comparisonIsRegex c).
    + destruct (hasCaseInsensitiveFlag c);
        destruct (RegExp_new _ _ h) as [[r|e] h1]; try discriminate;
        destruct (RegExp_exec r v h1) as [[m0|] h2]; try discriminate;
        now intros [= <- _].
    + destruct (String.eqb v c); [|discriminate]. now intros [= <- _].
  - destruct (RegExp_exec r v h) as [[m0|] h1]; [|discriminate].
    now intros [= <- _].
Qed.

End LoopFacts.

(** C7.  [matchesStringOrRegExp] is one pass over the pairs (input element,
    comparison element), input elements in order and for each the comparison
    elements in order, that stops at the first hit:
    - the result is NoMatch exactly when every pair, evaluated in turn, is a
      NoMatch;
    - the result is a hit [m] exactly when the pairs split into a front of
      misses, a pair [(v, p)] whose test yields [m], and a back part on which
      neither the result nor the final heap depends: the back is not
      evaluated;
    - a hit carries the value and the comparison element of its pair, so
      [pattern] is the first comparison element that matches. *)
Theorem first_match_in_order `{Engine : RegExpEngine}
  (input : Input) (comparison : Comparison) :
  (∀ h, matchesStringOrRegExp input comparison h =
        firstHit (pairsInOrder input comparison) h) ∧
  (∀ h h', matchesStringOrRegExp input comparison h = (Js.Normal None, h') ↔
           misses (pairsInOrder input comparison) h h') ∧
  (∀ h h' m,
     matchesStringOrRegExp input comparison h = (Js.Normal (Some m), h') ↔
     ∃ front v p back h1,
       pairsInOrder input comparison = front ++ (v, p) :: back ∧
       misses front h h1 ∧
       testAgainstStringOrRegExp v p h1 = (Js.Normal (Some m), h') ∧
       match_ m = v ∧ pattern m = p).
Proof.
  split; [apply matches_firstHit|]. split.
  - intros h h'. rewrite matches_firstHit. apply firstHit_miss.
  - intros h h' m. rewrite matches_firstHit, firstHit_hit. split.
    + intros (front & v & p & back & h1 & Hsplit & Hmiss & Htest).
      exists front, v, p, back, h1. repeat split; try assumption;
        now destruct (hit_fields _ _ _ _ _ Htest).
    + intros (front & v & p & back & h1 & Hsplit & Hmiss & Htest & _).
      now exists front, v, p, back, h1.
Qed.

(** A run on the small engine: [foo] is tested against [/q/], then against
    [/o/], which hits; the third comparison element, which would not
    compile, is never built, and [bar] is never tested. *)
Example first_match_in_order_run :
  @matchesStringOrRegExp Mini.engine (IArray ["foo"; "bar"])
    (CArray [PString "/q/"; PString "/o/"; PString "/(/"]) [] =
  (Js.Normal (Some (mkMatch "foo" (PString "/o/") "o")),
   [Mini.New "q" EmptyString;
    Mini.Exec (Mini.mkRegex false "q" false) "foo";
    Mini.New "o" EmptyString;
    Mini.Exec (Mini.mkRegex false "o" false) "foo"]).
Proof. reflexivity. Qed.

Lemma first_match_in_order_witness :
  fst (@matchesStringOrRegExp Mini.engine (IArray ["foo"; "bar"])
         (CArray [PString "/q/"; PString "/o/"; PString "/(/"]) []) =
  Js.Normal (Some (mkMatch "foo" (PString "/o/") "o")).
Proof.
  destruct (@first_match_in_order Mini.engine (IArray ["foo"; "bar"])
              (CArray [PString "/q/"; PString "/o/"; PString "/(/"]))
    as (_ & _ & Hhit).
  erewrite (proj2 (Hhit [] _ _)); [reflexivity|].
  exists [("foo", PString "/q/")], "foo", (PString "/o/"),
    [("foo", PString "/(/"); ("bar", PString "/q/"); ("bar", PString "/o/");
     ("bar", PString "/(/")].
  eexists. split; [reflexivity|]. split.
  - econstructor; [reflexivity | constructor].
  - split; [reflexivity|]. split; reflexivity.
Defined.

(** ** Match results *)

Section MatchFacts.
Context `{Engine : RegExpEngine}.
Import StringFacts.

Lemma orEmpty_id (s : string) : Js.orEmpty s = s.
Proof. now destruct s. Qed.

Lemma contiguousSlice_refl (s : string) : contiguousSlice s s.
Proof. exists EmptyString, EmptyString. now rewrite app_nil, app_empty_r. Qed.

Lemma hit_slice `{Laws : !EngineSlices} (v : string) (p : Pattern)
  (h h' : Heap) (m : Match) :
  testAgainstStringOrRegExp v p h = (Js.Normal (Some m), h') →
  contiguousSlice (substring m) v ∧
  (∀ t, p = PString t → comparisonIsRegex t = false → substring m = v).
Proof.
  destruct p as [c|r]; simpl; unfold bind, newRegExp, exec, ret.
  - destruct (comparisonIsRegex c) eqn:Hreg.
    + destruct (hasCaseInsensitiveFlag c);
        destruct (RegExp_new _ _ h) as [[r|e] h1]; try discriminate;
        destruct (RegExp_exec r v h1) as [[m0|] h2] eqn:Hexec;
        try discriminate; intros [= <- _]; simpl; rewrite orEmpty_id;
        (split; [exact (exec_slice _ _ _ _ _ Hexec) | congruence]).
    + destruct (String.eqb v c); [|discriminate]. intros [= <- _]. simpl.
      split; [apply contiguousSlice_refl | reflexivity].
  - destruct (RegExp_exec r v h) as [[m0|] h1] eqn:Hexec; [|discriminate].
    intros [= <- _]. simpl. rewrite orEmpty_id.
    split; [exact (exec_slice _ _ _ _ _ Hexec) | discriminate].
Qed.

Lemma pair_in_order (input : Input) (comparison : Comparison)
  (front back : list (string * Pattern)) (v : string) (p : Pattern) :
  pairsInOrder input comparison = front ++ (v, p) :: back →
  In v (inputItems input) ∧ In p (comparisonItems comparison).
Proof.
  intros Hsplit.
  assert (Hin : In (v, p) (pairsInOrder input comparison)).
  { rewrite Hsplit. apply in_or_app. right. now left. }
  unfold pairsInOrder in Hin. apply in_flat_map in Hin as (v' & Hv & Hp).
  apply in_map_iff in Hp as (p' & [= -> ->] & Hp). now split.
Qed.

End MatchFacts.

Section MiniFacts.
Import StringFacts.

Lemma matchHere_prefix (fold : bool) (lit s m : string) :
  Mini.matchHere fold lit s = Some m → ∃ back, s = m +:+ back.
Proof.
  revert s m. induction lit as [|a lit IH]; intros s m.
  - destruct s; intros [= <-]; eexists; reflexivity.
  - destruct s as [|b s]; simpl; [discriminate|].
    destruct (Mini.sameChar fold a b); [|discriminate].
    destruct (Mini.matchHere fold lit s) as [m'|] eqn:Hm; [|discriminate].
    intros [= <-]. destruct (IH _ _ Hm) as [back ->]. now exists back.
Qed.

Lemma search_slice (fold : bool) (lit s m : string) :
  Mini.search fold lit s = Some m → contiguousSlice m s.
Proof.
  induction s as [|b s IH]; simpl.
  - destruct (Mini.matchHere fold lit EmptyString) as [m'|] eqn:Hm;
      [|discriminate].
    intros [= <-]. destruct (matchHere_prefix _ _ _ _ Hm) as [back ->].
    now exists EmptyString, back.
  - destruct (Mini.matchHere fold lit (String b s)) as [m'|] eqn:Hm.
    + intros [= <-]. destruct (matchHere_prefix _ _ _ _ Hm) as [back ->].
      now exists EmptyString, back.
    + intros Hs. destruct (IH Hs) as (front & back & ->).
      now exists (String b front), back.
Qed.

(** The small engine returns pieces of the string it is run on. *)
Lemma mini_engine_slices : @EngineSlices Mini.engine.
Proof.
  intros r value h m h'. simpl. unfold Mini.run. intros [= Hrun _].
  destruct (Mini.anchored r).
  - destruct (matchHere_prefix _ _ _ _ Hrun) as [back ->].
    now exists EmptyString, back.
  - now apply search_slice in Hrun.
Qed.

End MiniFacts.

(** C9.  Given an engine whose matches are pieces of the string it is run
    on, every successful result of the matcher, whichever branch produced
    it, has a [substring] that is a contiguous slice of its [match] (the
    specification's [matchedInput]), which is one of the input elements;
    and when its [pattern] is a literal string, [substring] is the whole
    [match]. *)
Theorem substring_is_slice `{Engine : RegExpEngine} `{Laws : !EngineSlices}
  (input : Input) (comparison : Comparison) (h h' : Heap) (m : Match) :
  matchesStringOrRegExp input comparison h = (Js.Normal (Some m), h') →
  contiguousSlice (substring m) (match_ m) ∧
  In (match_ m) (inputItems input) ∧
  In (pattern m) (comparisonItems comparison) ∧
  (∀ t, pattern m = PString t → comparisonIsRegex t = false →
        substring m = match_ m).
Proof.
  rewrite matches_firstHit, firstHit_hit.
  intros (front & v & p & back & h1 & Hsplit & _ & Htest).
  destruct (hit_fields _ _ _ _ _ Htest) as [-> ->].
  destruct (hit_slice _ _ _ _ _ Htest) as [Hslice Hliteral].
  destruct (pair_in_order _ _ _ _ _ _ Hsplit) as [Hv Hp].
  repeat split; assumption || (intros t Ht; now apply Hliteral).
Qed.

Lemma substring_is_slice_witness :
  @matchesStringOrRegExp Mini.engine (IArray ["bar"; "FOO"])
    (COne (PString "/^f/i")) [] =
  (Js.Normal (Some (mkMatch "FOO" (PString "/^f/i") "F")),
   [Mini.New "^f" "i"; Mini.Exec (Mini.mkRegex true "f" true) "bar";
    Mini.New "^f" "i"; Mini.Exec (Mini.mkRegex true "f" true) "FOO"]) ∧
  contiguousSlice "F" "FOO".
Proof.
  assert (Hrun :
    @matchesStringOrRegExp Mini.engine (IArray ["bar"; "FOO"])
      (COne (PString "/^f/i")) [] =
    (Js.Normal (Some (mkMatch "FOO" (PString "/^f/i") "F")),
     [Mini.New "^f" "i"; Mini.Exec (Mini.mkRegex true "f" true) "bar";
      Mini.New "^f" "i"; Mini.Exec (Mini.mkRegex true "f" true) "FOO"]))
    by reflexivity.
  split; [exact Hrun|].
  exact (proj1 (@substring_is_slice Mini.engine mini_engine_slices
                  _ _ _ _ _ Hrun)).
Defined.

(** C6.  When a comparison string meets the convention
    ([comparisonIsRegex_spec]) and the engine refuses its inner text, the
    leaf test completes by throwing the engine's error, which is not the
    NoMatch result; nothing catches it on the way out: [matches] throws it
    as soon as the pair is reached, and so does [optionsMatches]. *)
Theorem construction_error_propagates `{Engine : RegExpEngine}
  (c : string) (e : Js.Error) (h h' : Heap) :
  comparisonIsRegex c = true →
  RegExp_new (Js.slice c 1 (if hasCaseInsensitiveFlag c then -2 else -1))
             (if hasCaseInsensitiveFlag c then "i" else EmptyString) h =
  (Js.Throw e, h') →
  ∀ value,
    testAgainstStringOrRegExp value (PString c) h = (Js.Throw e, h') ∧
    (∀ h2, testAgainstStringOrRegExp value (PString c) h ≠
           (Js.Normal None, h2)) ∧
    (∀ input comparison front back h0,
       pairsInOrder input comparison = front ++ (value, PString c) :: back →
       misses front h0 h →
       matchesStringOrRegExp input comparison h0 = (Js.Throw e, h')) ∧
    (∀ (o : gmap string Comparison) name comparison front back h0,
       o !! name = Some comparison →
       truthyComparison comparison = true →
       pairsInOrder (IString value) comparison =
       front ++ (value, PString c) :: back →
       misses front h0 h →
       optionsMatches (Some o) name (UString value) h0 = (Js.Throw e, h')).
Proof.
  intros Hreg Hnew value.
  assert (Hleaf :
    testAgainstStringOrRegExp value (PString c) h = (Js.Throw e, h')).
  { rewrite regex_branch by exact Hreg. unfold viaRegExp, bind, newRegExp.
    now rewrite Hnew. }
  assert (Hmatches : ∀ input comparison front back h0,
    pairsInOrder input comparison = front ++ (value, PString c) :: back →
    misses front h0 h →
    matchesStringOrRegExp input comparison h0 = (Js.Throw e, h')).
  { intros input comparison front back h0 Hsplit Hmiss.
    rewrite matches_firstHit, Hsplit.
    now apply (firstHit_throw front back value (PString c) h0 h h' e). }
  split; [exact Hleaf|]. split; [|split; [exact Hmatches|]].
  - intros h2. rewrite Hleaf. discriminate.
  - intros o name comparison front back h0 Hlookup Htruthy Hsplit Hmiss.
    unfold optionsMatches. rewrite Hlookup, Htruthy. unfold bind.
    now rewrite (Hmatches _ _ _ _ _ Hsplit Hmiss).
Qed.

Lemma construction_error_propagates_witness :
  comparisonIsRegex "/(/" = true ∧
  @testAgainstStringOrRegExp Mini.engine "a" (PString "/(/") [] =
  (Js.Throw (Js.SyntaxError "Invalid regular expression"),
   [Mini.New "(" EmptyString]).
Proof.
  assert (Hreg : comparisonIsRegex "/(/" = true) by reflexivity.
  split; [exact Hreg|].
  refine (proj1 (@construction_error_propagates Mini.engine "/(/"
                   (Js.SyntaxError "Invalid regular expression")
                   [] [Mini.New "(" EmptyString] Hreg _ "a")).
  reflexivity.
Defined.

(** ** The whitespace before the closing brace *)

Section SemicolonFacts.
Import StringFacts.

Lemma dropSemicolonRun_run (run post : string) :
  onlySemicolons run = true →
  startsWithSemicolon post = false →
  dropSemicolonRun (run +:+ post) = post.
Proof.
  intros Hrun Hpost. induction run as [|c run IH].
  - rewrite app_nil. destruct post as [|c post]; [reflexivity|].
    simpl in *. now rewrite Hpost.
  - rewrite app_cons. simpl in *.
    apply andb_true_iff in Hrun as [-> Hrun]. now apply IH.
Qed.

Lemma replaceSemicolonRun_none (s : string) :
  noSemicolon s = true → replaceSemicolonRun s = s.
Proof.
  induction s as [|c s IH]; [reflexivity|]. simpl.
  intros [Hc Hs]%andb_true_iff. apply negb_true_iff in Hc. rewrite Hc.
  now rewrite IH.
Qed.

(** Only the leftmost run goes: what follows it is kept as it is. *)
Lemma replaceSemicolonRun_run (pre run post : string) :
  noSemicolon pre = true →
  onlySemicolons run = true →
  run ≠ EmptyString →
  startsWithSemicolon post = false →
  replaceSemicolonRun (pre +:+ run +:+ post) = pre +:+ post.
Proof.
  intros Hpre Hrun Hne Hpost. induction pre as [|c pre IH].
  - rewrite !app_nil. destruct run as [|c run]; [congruence|].
    rewrite app_cons. simpl in *.
    apply andb_true_iff in Hrun as [-> Hrun].
    now apply dropSemicolonRun_run.
  - rewrite !app_cons. simpl in *.
    apply andb_true_iff in Hpre as [Hc Hpre]. apply negb_true_iff in Hc.
    rewrite Hc. now rewrite IH.
Qed.

(** Every string is of one of the two forms. *)
Lemma semicolon_run_split (s : string) :
  noSemicolon s = true ∨
  ∃ pre run post,
    s = pre +:+ run +:+ post ∧ noSemicolon pre = true ∧
    onlySemicolons run = true ∧ run ≠ EmptyString ∧
    startsWithSemicolon post = false.
Proof.
  induction s as [|c s IH]; [now left|].
  destruct (Ascii.eqb c semicolon) eqn:Hc.
  - right. apply Ascii.eqb_eq in Hc as ->.
    destruct IH as [Hnone | (pre & run & post & -> & Hpre & Hrun & Hne & Hpost)].
    + exists EmptyString, (String semicolon EmptyString), s.
      repeat split; try reflexivity; [discriminate|].
      destruct s as [|d s]; [reflexivity|]. simpl in *.
      now apply andb_true_iff in Hnone as [->%negb_true_iff _].
    + destruct pre as [|d pre].
      * exists EmptyString, (String semicolon run), post.
        repeat split; try assumption; try reflexivity; discriminate.
      * exists EmptyString, (String semicolon EmptyString),
          (String d pre +:+ run +:+ post).
        repeat split; try reflexivity; [discriminate|].
        rewrite app_cons. simpl in *.
        now apply andb_true_iff in Hpre as [->%negb_true_iff _].
  - destruct IH as [Hnone | (pre & run & post & -> & Hpre & Hrun & Hne & Hpost)].
    + left. simpl. now rewrite Hc, Hnone.
    + right. exists (String c pre), run, post.
      repeat split; try assumption.
      simpl. now rewrite Hc, Hpre.
Qed.

End SemicolonFacts.

Section RuleFacts.
Context `{Engine : RegExpEngine} `{Tree : TreeProvider}.
Context `{Utils : !Collaborators}.

(** [check] asks the blank-line test about one text only, [before]. *)
Lemma check_inspects_before (inspect : string → bool) (primary : string)
  (secondaryOptions : option (gmap string Comparison)) (context : RuleContext)
  (statement : Statement) (result : list Report) (h : Heap) :
  inspect (before statement) = hasEmptyLine (before statement) →
  check (Utils := withHasEmptyLine inspect) primary secondaryOptions context
        statement result h =
  check primary secondaryOptions context statement result h.
Proof.
  intros Hsame. unfold check. cbv zeta.
  change (@hasEmptyLine Tree (withHasEmptyLine inspect) (before statement))
    with (inspect (before statement)).
  rewrite Hsame. reflexivity.
Qed.

End RuleFacts.

Section StripFacts.
Import StringFacts.

Lemma stripSemicolons_none (s : string) :
  noSemicolon s = true → stripSemicolons s = s.
Proof.
  induction s as [|c s IH]; [reflexivity|]. simpl.
  intros [->%negb_true_iff Hs]%andb_true_iff. now rewrite IH.
Qed.

Lemma stripSemicolons_contiguous (pre run post : string) :
  noSemicolon pre = true →
  onlySemicolons run = true →
  noSemicolon post = true →
  stripSemicolons (pre +:+ run +:+ post) = pre +:+ post.
Proof.
  intros Hpre Hrun Hpost. induction pre as [|c pre IH].
  - rewrite !app_nil. induction run as [|c run IH].
    + rewrite app_nil. now apply stripSemicolons_none.
    + rewrite app_cons. simpl in *.
      apply andb_true_iff in Hrun as [-> Hrun]. now apply IH.
  - rewrite !app_cons. simpl in *.
    apply andb_true_iff in Hpre as [->%negb_true_iff Hpre]. now rewrite IH.
Qed.

Lemma noSemicolon_start (s : string) :
  noSemicolon s = true → startsWithSemicolon s = false.
Proof.
  destruct s as [|c s]; [reflexivity|]. simpl.
  now intros [->%negb_true_iff _]%andb_true_iff.
Qed.

Lemma noSemicolon_app (s t : string) :
  noSemicolon s = true → noSemicolon t = true → noSemicolon (s +:+ t) = true.
Proof.
  intros Hs Ht. induction s as [|c s IH]; [exact Ht|].
  rewrite app_cons. simpl in *.
  apply andb_true_iff in Hs as [-> Hs]. now apply IH.
Qed.

End StripFacts.


(** ** The expectation *)

Section ExpectationFacts.
Context `{Engine : RegExpEngine} `{Tree : TreeProvider}.
Context `{Utils : !Collaborators}.

Lemma possibleExcept_pattern (p : Pattern) :
  possiblePattern possibleExcept p = true → p = PString "after-closing-brace".
Proof.
  destruct p as [s|r]; simpl; [|discriminate].
  rewrite orb_false_r. now intros ->%String.eqb_eq.
Qed.

Lemma valid_except (primary : string) (o : gmap string Comparison)
  (c : Comparison) :
  validOptions primary (Some o) = true →
  o !! "except" = Some c →
  possibleValue possibleExcept c = true.
Proof.
  unfold validOptions. intros [_ Hall]%andb_true_iff Hlookup.
  rewrite forallb_forall in Hall.
  apply elem_of_map_to_list, list_elem_of_In, Hall in Hlookup.
  now apply andb_true_iff in Hlookup as [_ Hvalue].
Qed.

(** Under the rule's schema, [optionsMatches] on [except] is a membership
    test: no regex is built, the heap is left alone. *)
Lemma optionsMatches_except (primary : string)
  (secondaryOptions : option (gmap string Comparison)) (h : Heap) :
  validOptions primary secondaryOptions = true →
  optionsMatches secondaryOptions "except" (UString "after-closing-brace") h =
  (Js.Normal (exceptContains secondaryOptions "after-closing-brace"), h).
Proof.
  intros Hvalid. destruct secondaryOptions as [o|]; [|reflexivity].
  unfold optionsMatches, exceptContains.
  destruct (o !! "except") as [c|] eqn:Hlookup; [|reflexivity].
  pose proof (valid_except _ _ _ Hvalid Hlookup) as Hc.
  destruct c as [p|ps]; simpl in Hc.
  - apply possibleExcept_pattern in Hc as ->. reflexivity.
  - destruct ps as [|p ps]; [reflexivity|]. simpl in Hc.
    apply andb_true_iff in Hc as [->%possibleExcept_pattern _]. reflexivity.
Qed.

Lemma no_decl_child (children : list ChildNode) :
  negb (existsb (String.eqb "decl") (map node_type children)) =
  forallb (fun child => negb (String.eqb (node_type child) "decl")) children.
Proof.
  induction children as [|child children IH]; [reflexivity|].
  cbn [map existsb forallb].
  rewrite negb_orb, IH. now rewrite (String.eqb_sym "decl").
Qed.

(** [check] past its two early returns. *)
Lemma check_non_empty_block (primary : string)
  (secondaryOptions : option (gmap string Comparison)) (context : RuleContext)
  (statement : Statement) (result : list Report) (h h' : Heap) (e : bool) :
  hasBlock statement = true →
  hasEmptyBlock statement = false →
  expectEmptyLineBefore primary secondaryOptions statement h =
  (Js.Normal e, h') →
  check primary secondaryOptions context statement result h =
  (Js.Normal
     (if Bool.eqb e (hasEmptyLine (before statement))
      then (statement, result)
      else if fix_ context then
        match newline context with
        | None => (statement, result)
        | Some newline =>
            if e then (addEmptyLineAfter statement newline, result)
            else (removeEmptyLinesAfter statement newline, result)
        end
      else
        (statement,
         result ++ [mkReport (if e then expected messages
                              else rejected messages)
                             ruleName statement
                             (closingBraceIndex statement)])),
   h').
Proof.
  intros Hblock Hfull Hexpect. unfold check.
  rewrite Hblock, Hfull. change (negb true || false) with false.
  cbv zeta iota. unfold bind. rewrite Hexpect. unfold ret.
  destruct (Bool.eqb e (hasEmptyLine (before statement))); [reflexivity|].
  destruct (fix_ context); [|reflexivity].
  destruct (newline context); [|reflexivity].
  now destruct e.
Qed.

Lemma report_changes_result (result : list Report) (r : Report) :
  result ++ [r] ≠ result.
Proof.
  intros Heq. apply (f_equal (@List.length Report)) in Heq.
  rewrite length_app in Heq. simpl in Heq. lia.
Qed.

Lemma get_app_front (front back : string) (n : nat) :
  (n < String.length front)%nat →
  String.get n (front +:+ back) = String.get n front.
Proof.
  revert n. induction front as [|c front IH]; intros n Hn; simpl in Hn;
    [lia|].
  rewrite StringFacts.app_cons. destruct n as [|n]; [reflexivity|].
  simpl. apply IH. lia.
Qed.

(** The index reported: that of the closing brace, or of the carriage
    return when one stands right before the brace. *)
Lemma closingBraceIndex_brace (statement : Statement) (front : string) :
  toString statement = front +:+ "}" →
  ¬ lastCharIs CR front →
  closingBraceIndex statement = Js.length front.
Proof.
  intros Htext Hcr. unfold closingBraceIndex. rewrite Htext.
  unfold Js.length. rewrite StringFacts.app_length. simpl String.length.
  replace (Z.of_nat (String.length front + 1) - 1)
    with (Z.of_nat (String.length front)) by lia.
  destruct (Js.charIs _ CR) eqn:Hchar; [|reflexivity].
  exfalso. apply Hcr, last_char_spec. apply StringFacts.charIs_true in Hchar.
  unfold lastComparisonChar, Js.length.
  destruct (String.length front) as [|n] eqn:Hlen.
  - now rewrite StringFacts.charAt_negative in Hchar by lia.
  - replace (Z.of_nat (S n) - 1) with (Z.of_nat n) in * by lia.
    rewrite StringFacts.charAt_nat in *.
    now rewrite get_app_front in Hchar by lia.
Qed.

Lemma closingBraceIndex_carriage_return (statement : Statement)
  (front : string) :
  toString statement = front +:+ String CR "}" →
  closingBraceIndex statement = Js.length front.
Proof.
  intros Htext. unfold closingBraceIndex. rewrite Htext.
  unfold Js.length. rewrite StringFacts.app_length. simpl String.length.
  replace (Z.of_nat (String.length front + 2) - 1 - 1)
    with (Z.of_nat (String.length front)) by lia.
  rewrite StringFacts.charAt_nat, StringFacts.get_app_at. simpl. lia.
Qed.

End ExpectationFacts.


(** The text [check] inspects, as the code computes it.  For a statement
    with a non-empty block, the text handed to the blank-line test is the
    raw trailing whitespace (the
    empty string when the field is absent) with its leftmost run of
    consecutive semicolons removed: a field without semicolons is inspected
    as it is, and [pre ; ... ; post] is inspected as [pre post], whatever
    [post] holds.  When all the semicolons of the field stand together,
    none is left.  The blank-line test is asked about this text and no
    other, and its answer decides the outcome: with [context.fix] unset,
    [check] leaves the reports as they were exactly when the answer agrees
    with the expectation. *)
Theorem inspected_whitespace `{Engine : RegExpEngine} `{Tree : TreeProvider}
  `{Utils : !Collaborators} (statement : Statement) (raw : string) :
  hasBlock statement = true →
  hasEmptyBlock statement = false →
  raw = match raws_after statement with
        | Some after => after
        | None => EmptyString
        end →
  (noSemicolon raw = true → before statement = raw) ∧
  (∀ pre run post,
     raw = pre +:+ run +:+ post →
     noSemicolon pre = true → onlySemicolons run = true →
     run ≠ EmptyString → startsWithSemicolon post = false →
     before statement = pre +:+ post) ∧
  (∀ pre run post,
     raw = pre +:+ run +:+ post →
     noSemicolon pre = true → onlySemicolons run = true →
     noSemicolon post = true →
     before statement = stripSemicolons raw) ∧
  (noSemicolon raw = true ∨
   ∃ pre run post,
     raw = pre +:+ run +:+ post ∧ noSemicolon pre = true ∧
     onlySemicolons run = true ∧ run ≠ EmptyString ∧
     startsWithSemicolon post = false) ∧
  (∀ inspect primary secondaryOptions context result h,
     inspect (before statement) = hasEmptyLine (before statement) →
     check (Utils := withHasEmptyLine inspect) primary secondaryOptions
           context statement result h =
     check primary secondaryOptions context statement result h) ∧
  (∀ primary secondaryOptions context result h e h',
     expectEmptyLineBefore primary secondaryOptions statement h =
     (Js.Normal e, h') →
     fix_ context = false →
     (check primary secondaryOptions context statement result h =
      (Js.Normal (statement, result), h') ↔
      hasEmptyLine (before statement) = e)).
Proof.
  intros Hblock Hfull Hraw.
  assert (Hasked : ∀ primary secondaryOptions context result h e h',
    expectEmptyLineBefore primary secondaryOptions statement h =
    (Js.Normal e, h') →
    fix_ context = false →
    (check primary secondaryOptions context statement result h =
     (Js.Normal (statement, result), h') ↔
     hasEmptyLine (before statement) = e)).
  { intros primary secondaryOptions context result h e h' Hexpect Hfix.
    rewrite (check_non_empty_block _ _ _ _ _ _ _ _ Hblock Hfull Hexpect).
    rewrite Hfix.
    destruct (Bool.eqb e (hasEmptyLine (before statement))) eqn:Hsame.
    - apply Bool.eqb_prop in Hsame. now split.
    - apply Bool.eqb_false_iff in Hsame. split; [|congruence].
      intros [= Hresult]. now apply report_changes_result in Hresult. }
  revert Hasked.
  assert (Hbefore : before statement = replaceSemicolonRun raw).
  { unfold before. subst raw.
    destruct (raws_after statement) as [after|]; [|reflexivity].
    now rewrite orEmpty_id. }
  rewrite Hbefore. intros Hasked. repeat split.
  - apply replaceSemicolonRun_none.
  - intros pre run post -> Hpre Hrun Hne Hpost.
    now apply replaceSemicolonRun_run.
  - intros pre run post -> Hpre Hrun Hpost.
    rewrite stripSemicolons_contiguous by assumption.
    destruct run as [|c run].
    + rewrite StringFacts.app_nil. apply replaceSemicolonRun_none.
      now apply noSemicolon_app.
    + apply replaceSemicolonRun_run; try assumption; [discriminate|].
      now apply noSemicolon_start.
  - apply semicolon_run_split.
  - intros inspect primary secondaryOptions context result h.
    rewrite <- Hbefore. apply check_inspects_before.
  - now apply Hasked.
  - now apply Hasked.
Qed.

Lemma inspected_whitespace_witness :
  @hasBlock Sheet.tree Sheet.straySemicolons = true ∧
  @hasEmptyBlock Sheet.tree Sheet.straySemicolons = false ∧
  @before Sheet.tree Sheet.straySemicolons =
  EmptyString +:+ Sheet.nl +:+ ";" +:+ Sheet.nl.
Proof.
  assert (Hblock : @hasBlock Sheet.tree Sheet.straySemicolons = true)
    by reflexivity.
  assert (Hfull : @hasEmptyBlock Sheet.tree Sheet.straySemicolons = false)
    by reflexivity.
  split; [exact Hblock|]. split; [exact Hfull|].
  destruct (@inspected_whitespace Mini.engine Sheet.tree Sheet.utils
              Sheet.straySemicolons (";" +:+ Sheet.nl +:+ ";" +:+ Sheet.nl)
              Hblock Hfull eq_refl) as (_ & Hrun & _).
  apply (Hrun EmptyString ";" (Sheet.nl +:+ ";" +:+ Sheet.nl));
    reflexivity || discriminate.
Defined.

(** C3.  The rule's comment says the whitespace is taken "ignoring extra
    semicolon", and the claim has every semicolon stripped before the
    blank-line test.  The code misses semicolons that do not stand together:
    with [raws.after] equal to [;], line break, [;], line break, the text
    inspected still holds the second semicolon and differs from the field
    with its semicolons removed; it has no blank line, while that field
    has one. *)
Lemma stray_semicolon_survives :
  @hasBlock Sheet.tree Sheet.straySemicolons = true ∧
  @hasEmptyBlock Sheet.tree Sheet.straySemicolons = false ∧
  @raws_after Sheet.tree Sheet.straySemicolons =
  Some (";" +:+ Sheet.nl +:+ ";" +:+ Sheet.nl) ∧
  @before Sheet.tree Sheet.straySemicolons = Sheet.nl +:+ ";" +:+ Sheet.nl ∧
  @before Sheet.tree Sheet.straySemicolons ≠
  stripSemicolons (";" +:+ Sheet.nl +:+ ";" +:+ Sheet.nl) ∧
  Sheet.emptyLine (@before Sheet.tree Sheet.straySemicolons) = false ∧
  Sheet.emptyLine
    (stripSemicolons (";" +:+ Sheet.nl +:+ ";" +:+ Sheet.nl)) = true.
Proof.
  repeat split; try reflexivity. discriminate.
Qed.

(** C5.  With options the rule's schema accepts, and a statement that has a
    block, the expectation is computed without error and is
    [primary === "never"] when [except] contains [after-closing-brace], the
    statement is an at-rule and none of its direct children has type
    [decl]; in every other case, that of an at-rule with a declaration
    child included, it is [primary === "always-multi-line"] and the block's
    text spans several lines. *)
Theorem expected_blank_line `{Engine : RegExpEngine} `{Tree : TreeProvider}
  `{Utils : !Collaborators} (primary : string)
  (secondaryOptions : option (gmap string Comparison))
  (statement : Statement) (h : Heap) :
  validOptions primary secondaryOptions = true →
  hasBlock statement = true →
  expectEmptyLineBefore primary secondaryOptions statement h =
  (Js.Normal
     (if exceptContains secondaryOptions "after-closing-brace"
         && isAtRule statement && noDeclarationChild statement
      then String.eqb primary "never"
      else String.eqb primary "always-multi-line"
           && spansSeveralLines statement),
   h).
Proof.
  intros Hvalid Hblock.
  unfold expectEmptyLineBefore, hasBlock, noDeclarationChild in *.
  destruct (statement_nodes statement) as [children|]; [|discriminate].
  unfold bind. rewrite (optionsMatches_except primary) by exact Hvalid.
  rewrite no_decl_child. fold (isAtRule statement).
  now destruct (_ && _ && _).
Qed.

Lemma expected_blank_line_witness :
  @validOptions Mini.engine "never" Sheet.exceptAfterClosingBrace = true ∧
  @hasBlock Sheet.tree Sheet.mediaRule = true ∧
  @expectEmptyLineBefore Mini.engine Sheet.tree Sheet.utils "never"
    Sheet.exceptAfterClosingBrace Sheet.mediaRule [] = (Js.Normal true, []) ∧
  @expectEmptyLineBefore Mini.engine Sheet.tree Sheet.utils "never"
    Sheet.exceptAfterClosingBrace Sheet.multiLineRule [] =
  (Js.Normal false, []).
Proof.
  assert (Hvalid :
    @validOptions Mini.engine "never" Sheet.exceptAfterClosingBrace = true)
    by (vm_compute; reflexivity).
  assert (Hmedia : @hasBlock Sheet.tree Sheet.mediaRule = true)
    by reflexivity.
  assert (Hrule : @hasBlock Sheet.tree Sheet.multiLineRule = true)
    by reflexivity.
  split; [exact Hvalid|]. split; [exact Hmedia|]. split.
  - exact (@expected_blank_line Mini.engine Sheet.tree Sheet.utils "never"
             Sheet.exceptAfterClosingBrace Sheet.mediaRule [] Hvalid Hmedia).
  - exact (@expected_blank_line Mini.engine Sheet.tree Sheet.utils "never"
             Sheet.exceptAfterClosingBrace Sheet.multiLineRule [] Hvalid Hrule).
Defined.

(** C4.  For a statement with a non-empty block whose expectation [e] has
    been computed: when the blank-line test on [before] agrees with [e],
    [check] returns with the statement and the reports as they were; when
    it disagrees and [context.fix] is not set, [check] files exactly one
    more report, for this rule, with the statement as node and the index
    computed for the closing brace, and its message is [messages.expected]
    when a blank line was expected and [messages.rejected] otherwise.  The
    two texts are registered through stylelint's [ruleMessages]; in lower
    case they read "expected empty line before closing brace" and
    "unexpected empty line before closing brace".  The index is that of the
    closing brace, or of a carriage return standing right before it. *)
Theorem report_or_nothing `{Engine : RegExpEngine} `{Tree : TreeProvider}
  `{Utils : !Collaborators} (primary : string)
  (secondaryOptions : option (gmap string Comparison)) (context : RuleContext)
  (statement : Statement) (result : list Report) (h h' : Heap) (e : bool) :
  hasBlock statement = true →
  hasEmptyBlock statement = false →
  expectEmptyLineBefore primary secondaryOptions statement h =
  (Js.Normal e, h') →
  (hasEmptyLine (before statement) = e →
   check primary secondaryOptions context statement result h =
   (Js.Normal (statement, result), h')) ∧
  (hasEmptyLine (before statement) ≠ e →
   fix_ context = false →
   check primary secondaryOptions context statement result h =
   (Js.Normal
      (statement,
       result ++ [mkReport (if e then expected messages
                            else rejected messages)
                           ruleName statement (closingBraceIndex statement)]),
    h')) ∧
  messages = ruleMessages ruleName messageTexts ∧
  Js.toLowerCase (expected messageTexts) =
  "expected empty line before closing brace" ∧
  Js.toLowerCase (rejected messageTexts) =
  "unexpected empty line before closing brace" ∧
  (∀ front, toString statement = front +:+ "}" → ¬ lastCharIs CR front →
            closingBraceIndex statement = Js.length front) ∧
  (∀ front, toString statement = front +:+ String CR "}" →
            closingBraceIndex statement = Js.length front).
Proof.
  intros Hblock Hfull Hexpect.
  pose proof (check_non_empty_block primary secondaryOptions context
                statement result h h' e Hblock Hfull Hexpect) as Hcheck.
  split; [|split].
  - intros Hsame. rewrite Hcheck, Hsame. now rewrite Bool.eqb_reflx.
  - intros Hdiffer Hfix. rewrite Hcheck, Hfix.
    destruct (Bool.eqb e (hasEmptyLine (before statement))) eqn:Hsame;
      [|reflexivity].
    apply Bool.eqb_prop in Hsame. congruence.
  - repeat split.
    + apply closingBraceIndex_brace.
    + apply closingBraceIndex_carriage_return.
Qed.

Lemma report_or_nothing_witness :
  @hasBlock Sheet.tree Sheet.multiLineRule = true ∧
  @hasEmptyBlock Sheet.tree Sheet.multiLineRule = false ∧
  @expectEmptyLineBefore Mini.engine Sheet.tree Sheet.utils
    "always-multi-line" None Sheet.multiLineRule [] = (Js.Normal true, []) ∧
  @check Mini.engine Sheet.tree Sheet.utils "always-multi-line" None
    (mkContext false None) Sheet.multiLineRule [] [] =
  (Js.Normal
     (Sheet.multiLineRule,
      [@mkReport Sheet.tree
         "Expected empty line before closing brace (block-closing-brace-empty-line-before)"
         "block-closing-brace-empty-line-before" Sheet.multiLineRule 19]),
   []).
Proof.
  assert (Hblock : @hasBlock Sheet.tree Sheet.multiLineRule = true)
    by reflexivity.
  assert (Hfull : @hasEmptyBlock Sheet.tree Sheet.multiLineRule = false)
    by reflexivity.
  assert (Hexpect :
    @expectEmptyLineBefore Mini.engine Sheet.tree Sheet.utils
      "always-multi-line" None Sheet.multiLineRule [] = (Js.Normal true, []))
    by reflexivity.
  split; [exact Hblock|]. split; [exact Hfull|]. split; [exact Hexpect|].
  destruct (@report_or_nothing Mini.engine Sheet.tree Sheet.utils
              "always-multi-line" None (mkContext false None)
              Sheet.multiLineRule [] [] [] true Hblock Hfull Hexpect)
    as (_ & Hreport & _).
  rewrite Hreport; [reflexivity | discriminate | reflexivity].
Defined.

(** C10.  For a statement with a non-empty block whose expectation differs
    from what the blank-line test finds: when [context.fix] is set and
    [context.newline] is not a string, [check] returns normally, with the
    statement (its [raws.after] included) and the reports as they were. *)
Theorem fix_without_newline `{Engine : RegExpEngine} `{Tree : TreeProvider}
  `{Utils : !Collaborators} (primary : string)
  (secondaryOptions : option (gmap string Comparison)) (context : RuleContext)
  (statement : Statement) (result : list Report) (h h' : Heap) (e : bool) :
  hasBlock statement = true →
  hasEmptyBlock statement = false →
  expectEmptyLineBefore primary secondaryOptions statement h =
  (Js.Normal e, h') →
  hasEmptyLine (before statement) ≠ e →
  fix_ context = true →
  newline context = None →
  check primary secondaryOptions context statement result h =
  (Js.Normal (statement, result), h').
Proof.
  intros Hblock Hfull Hexpect Hdiffer Hfix Hnewline.
  rewrite (check_non_empty_block primary secondaryOptions context statement
             result h h' e Hblock Hfull Hexpect).
  rewrite Hfix, Hnewline. now destruct (Bool.eqb e _).
Qed.

Lemma fix_without_newline_witness :
  @hasBlock Sheet.tree Sheet.multiLineRule = true ∧
  @hasEmptyBlock Sheet.tree Sheet.multiLineRule = false ∧
  @expectEmptyLineBefore Mini.engine Sheet.tree Sheet.utils
    "always-multi-line" None Sheet.multiLineRule [] = (Js.Normal true, []) ∧
  Sheet.emptyLine (@before Sheet.tree Sheet.multiLineRule) ≠ true ∧
  @check Mini.engine Sheet.tree Sheet.utils "always-multi-line" None
    (mkContext true None) Sheet.multiLineRule [] [] =
  (Js.Normal (Sheet.multiLineRule, []), []).
Proof.
  assert (Hblock : @hasBlock Sheet.tree Sheet.multiLineRule = true)
    by reflexivity.
  assert (Hfull : @hasEmptyBlock Sheet.tree Sheet.multiLineRule = false)
    by reflexivity.
  assert (Hexpect :
    @expectEmptyLineBefore Mini.engine Sheet.tree Sheet.utils
      "always-multi-line" None Sheet.multiLineRule [] = (Js.Normal true, []))
    by reflexivity.
  assert (Hdiffer :
    Sheet.emptyLine (@before Sheet.tree Sheet.multiLineRule) ≠ true)
    by discriminate.
  split; [exact Hblock|]. split; [exact Hfull|]. split; [exact Hexpect|].
  split; [exact Hdiffer|].
  exact (@fix_without_newline Mini.engine Sheet.tree Sheet.utils
           "always-multi-line" None (mkContext true None)
           Sheet.multiLineRule [] [] [] true Hblock Hfull Hexpect Hdiffer
           eq_refl eq_refl).
Defined.

(** * Further properties of the option module *)

Section OptionModuleFacts.
Context `{Engine : RegExpEngine}.

Lemma firstHit_throw_inv (pairs : list (string * Pattern)) (h h' : Heap)
  (e : Js.Error) :
  firstHit pairs h = (Js.Throw e, h') →
  ∃ front v p back h1,
    pairs = front ++ (v, p) :: back ∧
    misses front h h1 ∧
    testAgainstStringOrRegExp v p h1 = (Js.Throw e, h').
Proof.
  revert h. induction pairs as [|[v p] rest IH]; intros h Hrun.
  - discriminate.
  - simpl in Hrun. unfold bind in Hrun.
    destruct (testAgainstStringOrRegExp v p h) as [[[m1|]|e1] h1] eqn:Htest;
      try discriminate.
    + destruct (IH _ Hrun) as (front & v' & p' & back & h2 & -> & Hm & Ht).
      exists ((v, p) :: front), v', p', back, h2.
      repeat split; [econstructor; eassumption | exact Ht].
    + injection Hrun as -> ->.
      exists [], v, p, rest, h. repeat split; [constructor | exact Htest].
Qed.

(** On a string comparison, only the construction of the regex throws. *)
Lemma leaf_throw_inv (v c : string) (h h' : Heap) (e : Js.Error) :
  testAgainstStringOrRegExp v (PString c) h = (Js.Throw e, h') →
  comparisonIsRegex c = true ∧
  RegExp_new (Js.slice c 1 (if hasCaseInsensitiveFlag c then -2 else -1))
             (if hasCaseInsensitiveFlag c then "i" else EmptyString) h =
  (Js.Throw e, h').
Proof.
  destruct (comparisonIsRegex c) eqn:Hreg.
  - rewrite regex_branch by exact Hreg.
    unfold viaRegExp, testAgainstStringOrRegExp.
    unfold bind, newRegExp, exec, ret.
    destruct (RegExp_new _ _ h) as [[r|e1] h1] eqn:Hnew.
    + destruct (RegExp_exec r v h1) as [[m0|] h2]; simpl; discriminate.
    + now intros [= -> ->].
  - now rewrite literal_branch by exact Hreg.
Qed.

(** One row of pairs against literal comparison elements. *)
Lemma literal_row (v : string) (ps : list Pattern) (h : Heap) :
  forallb literalPattern ps = true →
  firstHit (map (pair v) ps) h =
  (Js.Normal (if existsb (patternIs v) ps
              then Some (mkMatch v (PString v) v) else None), h).
Proof.
  induction ps as [|p ps IH]; [reflexivity|].
  cbn [forallb map existsb firstHit].
  intros [Hp Hps]%andb_true_iff.
  destruct p as [c|r]; [|discriminate]. simpl in Hp.
  apply negb_true_iff in Hp. unfold bind.
  rewrite literal_branch by exact Hp. unfold literalComparison, patternIs.
  rewrite (String.eqb_sym v c).
  destruct (String.eqb_spec c v) as [->|]; [reflexivity|].
  now apply IH.
Qed.

End OptionModuleFacts.

(** X1.  [optionsMatches] answers [false], without running any test, when
    [options] is absent, when the property is absent or is the empty string,
    and when the input is not a string; in every other case it is the
    truthiness of what [matchesStringOrRegExp] returns for the property, and
    it throws when that throws. *)
Theorem optionsMatches_guards `{Engine : RegExpEngine}
  (name : string) (h : Heap) :
  (∀ input, optionsMatches None name input h = (Js.Normal false, h)) ∧
  (∀ (o : gmap string Comparison) input,
     o !! name = None →
     optionsMatches (Some o) name input h = (Js.Normal false, h)) ∧
  (∀ (o : gmap string Comparison) input,
     o !! name = Some (COne (PString EmptyString)) →
     optionsMatches (Some o) name input h = (Js.Normal false, h)) ∧
  (∀ options, optionsMatches options name UOther h = (Js.Normal false, h)) ∧
  (∀ (o : gmap string Comparison) comparison s,
     o !! name = Some comparison →
     comparison ≠ COne (PString EmptyString) →
     optionsMatches (Some o) name (UString s) h =
     match matchesStringOrRegExp (IString s) comparison h with
     | (Js.Normal r, h') => (Js.Normal (truthy r), h')
     | (Js.Throw e, h') => (Js.Throw e, h')
     end).
Proof.
  repeat split.
  - intros o input Hlookup. unfold optionsMatches. now rewrite Hlookup.
  - intros o input Hlookup. unfold optionsMatches. now rewrite Hlookup.
  - intros [o|]; [|reflexivity]. unfold optionsMatches.
    destruct (o !! name) as [c|]; [|reflexivity].
    now destruct (truthyComparison c).
  - intros o comparison s Hlookup Hne. unfold optionsMatches.
    rewrite Hlookup.
    assert (Htruthy : truthyComparison comparison = true).
    { destruct comparison as [[[|a c]|r]|ps]; try reflexivity.
      now contradiction Hne. }
    rewrite Htruthy. unfold bind, ret.
    now destruct (matchesStringOrRegExp _ _ h) as [[r|e] h1].
Qed.

Lemma optionsMatches_guards_witness :
  (∅ : gmap string (@Comparison Mini.engine)) !! "except" = None ∧
  @optionsMatches Mini.engine (Some ∅) "except"
    (UString "after-closing-brace") [] = (Js.Normal false, []).
Proof.
  assert (Hlookup :
    (∅ : gmap string (@Comparison Mini.engine)) !! "except" = None)
    by reflexivity.
  split; [exact Hlookup|].
  destruct (@optionsMatches_guards Mini.engine "except" [])
    as (_ & Habsent & _).
  now apply Habsent.
Defined.

(** X2.  An empty comparison sequence matches nothing and an empty input
    sequence is matched by nothing: the result is NoMatch and the engine is
    not touched.  An option set to the empty array is truthy, so
    [optionsMatches] goes on to test it, and answers [false]. *)
Theorem empty_sequences_never_match `{Engine : RegExpEngine} (h : Heap) :
  (∀ input, matchesStringOrRegExp input (CArray []) h = (Js.Normal None, h)) ∧
  (∀ comparison,
     matchesStringOrRegExp (IArray []) comparison h = (Js.Normal None, h)) ∧
  (∀ (o : gmap string Comparison) name input,
     o !! name = Some (CArray []) →
     optionsMatches (Some o) name input h = (Js.Normal false, h)).
Proof.
  assert (Hnone : ∀ input,
    matchesStringOrRegExp input (CArray []) h = (Js.Normal None, h)).
  { intros [s|ss]; [reflexivity|]. simpl.
    induction ss as [|s ss IH]; [reflexivity|]. simpl. unfold bind. simpl.
    exact IH. }
  repeat split; [exact Hnone|].
  intros o name input Hlookup. unfold optionsMatches. rewrite Hlookup.
  destruct input as [s|]; [|reflexivity].
  change (truthyComparison (CArray [])) with true.
  unfold bind. now rewrite Hnone.
Qed.

Lemma empty_sequences_never_match_witness :
  ({[ "except" := CArray [] ]} : gmap string (@Comparison Mini.engine))
    !! "except" = Some (CArray []) ∧
  @optionsMatches Mini.engine (Some {[ "except" := CArray [] ]}) "except"
    (UString "after-closing-brace") [] = (Js.Normal false, []).
Proof.
  assert (Hlookup :
    ({[ "except" := CArray [] ]} : gmap string (@Comparison Mini.engine))
      !! "except" = Some (CArray [])) by (vm_compute; reflexivity).
  split; [exact Hlookup|].
  destruct (@empty_sequences_never_match Mini.engine []) as (_ & _ & Hopt).
  now apply Hopt.
Defined.

(** X3.  A one-element array stands for its element, on either side:
    [matches([s], c)] is [matches(s, c)] and [matches(x, [p])] is
    [matches(x, p)], result, error and engine heap alike. *)
Theorem singleton_array_is_scalar `{Engine : RegExpEngine}
  (h : Heap) :
  (∀ s comparison,
     matchesStringOrRegExp (IArray [s]) comparison h =
     matchesStringOrRegExp (IString s) comparison h) ∧
  (∀ input p,
     matchesStringOrRegExp input (CArray [p]) h =
     matchesStringOrRegExp input (COne p) h).
Proof.
  split; intros; now rewrite !matches_firstHit.
Qed.

(** X4.  Matching against a concatenation is matching against the first
    part and, only if that is a NoMatch, against the second part from the
    heap the first part left: for input arrays against any comparison, and
    for one value against comparison arrays.  A hit or an error in the first
    part is the outcome, and the second part is not evaluated. *)
Theorem matches_concatenation `{Engine : RegExpEngine} (h : Heap) :
  (∀ xs ys comparison,
     matchesStringOrRegExp (IArray (xs ++ ys)) comparison h =
     match matchesStringOrRegExp (IArray xs) comparison h with
     | (Js.Normal None, h1) => matchesStringOrRegExp (IArray ys) comparison h1
     | other => other
     end) ∧
  (∀ value ps qs,
     matchesStringOrRegExp (IString value) (CArray (ps ++ qs)) h =
     match matchesStringOrRegExp (IString value) (CArray ps) h with
     | (Js.Normal None, h1) =>
         matchesStringOrRegExp (IString value) (CArray qs) h1
     | other => other
     end).
Proof.
  split.
  - intros xs ys comparison. rewrite !matches_firstHit.
    unfold pairsInOrder. simpl inputItems. rewrite flat_map_app, firstHit_app.
    destruct (firstHit _ h) as [[[m|]|e] h1]; try reflexivity.
    now rewrite matches_firstHit.
  - intros value ps qs. rewrite !matches_firstHit.
    unfold pairsInOrder. simpl. rewrite !app_nil_r, map_app, firstHit_app.
    destruct (firstHit _ h) as [[[m|]|e] h1]; try reflexivity.
    symmetry. apply forComparisonItems_firstHit.
Qed.

Section LiteralFacts.
Context `{Engine : RegExpEngine}.

Lemma literal_rows (inputs : list string) (ps : list Pattern) (h : Heap) :
  forallb literalPattern ps = true →
  firstHit (flat_map (fun v => map (pair v) ps) inputs) h =
  (Js.Normal (match firstAmong inputs ps with
              | Some v => Some (mkMatch v (PString v) v)
              | None => None
              end), h).
Proof.
  intros Hps. induction inputs as [|v inputs IH]; [reflexivity|].
  cbn [flat_map]. rewrite firstHit_app, (literal_row v ps h Hps).
  unfold firstAmong. cbn [find].
  destruct (existsb (patternIs v) ps); [reflexivity | exact IH].
Qed.

End LiteralFacts.

(** X5.  When every comparison element is a literal string, matching never
    calls the regex engine and never throws: the result is the first input
    element that occurs among the comparison strings, returned as [match],
    [pattern] and [substring] alike, or NoMatch when no input element occurs
    among them. *)
Theorem literal_comparisons_are_membership `{Engine : RegExpEngine}
  (input : Input) (comparison : Comparison) (h : Heap) :
  forallb literalPattern (comparisonItems comparison) = true →
  matchesStringOrRegExp input comparison h =
  (Js.Normal
     (match firstAmong (inputItems input) (comparisonItems comparison) with
      | Some v => Some (mkMatch v (PString v) v)
      | None => None
      end), h).
Proof.
  intros Hliteral. rewrite matches_firstHit. now apply literal_rows.
Qed.

Lemma literal_comparisons_are_membership_witness :
  forallb (@literalPattern Mini.engine)
    [PString "foo"; PString "bar"] = true ∧
  @matchesStringOrRegExp Mini.engine (IArray ["baz"; "bar"; "foo"])
    (CArray [PString "foo"; PString "bar"]) [] =
  (Js.Normal (Some (mkMatch "bar" (PString "bar") "bar")), []).
Proof.
  assert (Hliteral : forallb (@literalPattern Mini.engine)
                       [PString "foo"; PString "bar"] = true)
    by reflexivity.
  split; [exact Hliteral|].
  exact (@literal_comparisons_are_membership Mini.engine
           (IArray ["baz"; "bar"; "foo"])
           (CArray [PString "foo"; PString "bar"]) [] Hliteral).
Defined.

(** X6.  A comparison string is compared literally whenever it does not
    begin with [/], and whenever its last character is neither [/] nor [i]:
    no flag other than [i] is recognised, so a string such as [/x/g] is a
    literal. *)
Theorem other_strings_are_literal `{Engine : RegExpEngine} (c : string) :
  (¬ firstCharIs slash c ∨
   ∃ a, lastCharIs a c ∧ a ≠ slash ∧ a ≠ letter_i) →
  comparisonIsRegex c = false ∧
  ∀ value h,
    testAgainstStringOrRegExp value (PString c) h =
    (Js.Normal (literalComparison value c), h).
Proof.
  intros Hshape.
  assert (Hlit : comparisonIsRegex c = false).
  { destruct (comparisonIsRegex c) eqn:Hreg; [|reflexivity].
    apply comparisonIsRegex_spec in Hreg as [Hfirst Hlast].
    destruct Hshape as [Hnot | (a & Ha & Hslash & Hi)];
      [now contradiction Hnot|].
    destruct Hlast as [Hl | [_ Hl]];
      now pose proof (last_char_unique c _ _ Ha Hl). }
  split; [exact Hlit|]. intros value h. now apply literal_branch.
Qed.

Lemma other_strings_are_literal_witness :
  lastCharIs "g" "/x/g" ∧
  ∀ value h,
    @testAgainstStringOrRegExp Mini.engine value (PString "/x/g") h =
    (Js.Normal (literalComparison value "/x/g"), h).
Proof.
  assert (Hlast : lastCharIs "g" "/x/g") by (now exists "/x/").
  split; [exact Hlast|].
  apply (@other_strings_are_literal Mini.engine "/x/g").
  right. exists "g"%char. repeat split; [exact Hlast | discriminate ..].
Defined.

(** X7.  When every comparison element is a string, the matcher throws
    only out of the construction of a regex: if [matchesStringOrRegExp]
    throws, one of the comparison strings meets the embedded-regex
    convention, the error is the one [new RegExp] threw on its inner text,
    and every pair tested before it was a NoMatch. *)
Theorem throws_only_from_construction `{Engine : RegExpEngine}
  (input : Input) (comparison : Comparison) (h h' : Heap) (e : Js.Error) :
  forallb stringPattern (comparisonItems comparison) = true →
  matchesStringOrRegExp input comparison h = (Js.Throw e, h') →
  ∃ c front back value h1,
    In (PString c) (comparisonItems comparison) ∧
    comparisonIsRegex c = true ∧
    pairsInOrder input comparison = front ++ (value, PString c) :: back ∧
    misses front h h1 ∧
    RegExp_new (Js.slice c 1 (if hasCaseInsensitiveFlag c then -2 else -1))
               (if hasCaseInsensitiveFlag c then "i" else EmptyString) h1 =
    (Js.Throw e, h').
Proof.
  intros Hstrings. rewrite matches_firstHit.
  intros (front & v & p & back & h1 & Hsplit & Hmiss & Hthrow)%firstHit_throw_inv.
  destruct (pair_in_order _ _ _ _ _ _ Hsplit) as [_ Hin].
  rewrite forallb_forall in Hstrings. pose proof (Hstrings p Hin) as Hp.
  destruct p as [c|r]; [|discriminate].
  apply leaf_throw_inv in Hthrow as (Hreg & Hnew).
  exists c, front, back, v, h1. now repeat split.
Qed.

Lemma throws_only_from_construction_witness :
  forallb (@stringPattern Mini.engine) [PString "b"; PString "/(/"] = true ∧
  @matchesStringOrRegExp Mini.engine (IString "a")
    (CArray [PString "b"; PString "/(/"]) [] =
  (Js.Throw (Js.SyntaxError "Invalid regular expression"),
   [Mini.New "(" EmptyString]) ∧
  ∃ c, In (PString c) [@PString Mini.engine "b"; PString "/(/"] ∧
       comparisonIsRegex c = true.
Proof.
  assert (Hstrings : forallb (@stringPattern Mini.engine)
                       [PString "b"; PString "/(/"] = true) by reflexivity.
  assert (Hthrow :
    @matchesStringOrRegExp Mini.engine (IString "a")
      (CArray [PString "b"; PString "/(/"]) [] =
    (Js.Throw (Js.SyntaxError "Invalid regular expression"),
     [Mini.New "(" EmptyString])) by reflexivity.
  split; [exact Hstrings|]. split; [exact Hthrow|].
  destruct (@throws_only_from_construction Mini.engine
              (IString "a") (CArray [PString "b"; PString "/(/"]) _ _ _
              Hstrings Hthrow)
    as (c & _ & _ & _ & _ & Hin & Hreg & _).
  now exists c.
Defined.

(** * Further properties of the rule *)

Section CheckFacts.
Context `{Engine : RegExpEngine} `{Tree : TreeProvider}.
Context `{Utils : !Collaborators}.

(** [check] on a statement without a block, or with an empty one. *)
Lemma check_skipped (primary : string)
  (secondaryOptions : option (gmap string Comparison)) (context : RuleContext)
  (statement : Statement) (result : list Report) (h : Heap) :
  hasBlock statement = false ∨ hasEmptyBlock statement = true →
  check primary secondaryOptions context statement result h =
  (Js.Normal (statement, result), h).
Proof.
  intros Hskip. unfold check.
  destruct Hskip as [-> | ->]; [reflexivity|].
  now rewrite orb_true_r.
Qed.

(** An error while the expectation is computed is the outcome of [check]. *)
Lemma check_throw (primary : string)
  (secondaryOptions : option (gmap string Comparison)) (context : RuleContext)
  (statement : Statement) (result : list Report) (h h' : Heap)
  (e : Js.Error) :
  hasBlock statement = true →
  hasEmptyBlock statement = false →
  expectEmptyLineBefore primary secondaryOptions statement h =
  (Js.Throw e, h') →
  check primary secondaryOptions context statement result h =
  (Js.Throw e, h').
Proof.
  intros Hblock Hfull Hexpect. unfold check.
  rewrite Hblock, Hfull. change (negb true || false) with false.
  cbv zeta iota. unfold bind. now rewrite Hexpect.
Qed.

(** Every way [check] can complete normally. *)
Lemma check_inv (primary : string)
  (secondaryOptions : option (gmap string Comparison)) (context : RuleContext)
  (statement statement' : Statement) (result result' : list Report)
  (h h' : Heap) :
  check primary secondaryOptions context statement result h =
  (Js.Normal (statement', result'), h') →
  (statement' = statement ∧ result' = result) ∨
  ∃ e,
    expectEmptyLineBefore primary secondaryOptions statement h =
    (Js.Normal e, h') ∧
    hasEmptyLine (before statement) ≠ e ∧
    ((fix_ context = true ∧ result' = result ∧
      ∃ nl, newline context = Some nl ∧
            statement' = if e then addEmptyLineAfter statement nl
                         else removeEmptyLinesAfter statement nl) ∨
     (fix_ context = false ∧ statement' = statement ∧
      result' = result ++ [mkReport (if e then expected messages
                                     else rejected messages)
                                    ruleName statement
                                    (closingBraceIndex statement)])).
Proof.
  destruct (hasBlock statement) eqn:Hblock;
    [|rewrite check_skipped by (now left); intros [= <- <- _]; now left].
  destruct (hasEmptyBlock statement) eqn:Hfull;
    [rewrite check_skipped by (now right); intros [= <- <- _]; now left|].
  destruct (expectEmptyLineBefore primary secondaryOptions statement h)
    as [[e|err] h1] eqn:Hexpect.
  - rewrite (check_non_empty_block _ _ _ _ _ _ _ _ Hblock Hfull Hexpect).
    destruct (Bool.eqb e (hasEmptyLine (before statement))) eqn:Hsame.
    { intros [= <- <- _]. now left. }
    apply Bool.eqb_false_iff in Hsame.
    destruct (fix_ context).
    + destruct (newline context) as [nl|].
      * intros Hrun. right. exists e.
        assert (Hout : statement' = (if e then addEmptyLineAfter statement nl
                                     else removeEmptyLinesAfter statement nl)
                       ∧ result' = result ∧ h' = h1)
          by (destruct e; injection Hrun as <- <- <-; now repeat split).
        destruct Hout as (-> & -> & ->).
        repeat split; [congruence|]. left. repeat split.
        now exists nl.
      * intros [= <- <- _]. now left.
    + intros [= <- <- <-]. right. exists e.
      repeat split; [congruence|]. now right.
  - now rewrite (check_throw _ _ _ _ _ _ _ _ Hblock Hfull Hexpect).
Qed.

(** The expectation under the rule's schema. *)
Lemma expectation_under_schema (primary : string)
  (secondaryOptions : option (gmap string Comparison))
  (statement : Statement) (h : Heap) :
  validOptions primary secondaryOptions = true →
  hasBlock statement = true →
  expectEmptyLineBefore primary secondaryOptions statement h =
  (Js.Normal
     (if exceptContains secondaryOptions "after-closing-brace"
         && isAtRule statement && noDeclarationChild statement
      then String.eqb primary "never"
      else String.eqb primary "always-multi-line"
           && spansSeveralLines statement),
   h).
Proof.
  intros Hvalid Hblock.
  unfold expectEmptyLineBefore, hasBlock, noDeclarationChild in *.
  destruct (statement_nodes statement) as [children|]; [|discriminate].
  unfold bind. rewrite (optionsMatches_except primary) by exact Hvalid.
  rewrite no_decl_child. fold (isAtRule statement).
  now destruct (_ && _ && _).
Qed.

Lemma replaceSemicolonRun_length (s : string) :
  (String.length (replaceSemicolonRun s) ≤ String.length s)%nat.
Proof.
  assert (Hdrop : ∀ t,
    (String.length (dropSemicolonRun t) ≤ String.length t)%nat).
  { induction t as [|c t IH]; simpl; [lia|].
    destruct (Ascii.eqb c semicolon); simpl; lia. }
  induction s as [|c s IH]; simpl; [lia|].
  destruct (Ascii.eqb c semicolon); simpl; [|lia].
  pose proof (Hdrop s). lia.
Qed.

Lemma replaceSemicolonRun_shorter (s : string) :
  noSemicolon s = false →
  (String.length (replaceSemicolonRun s) < String.length s)%nat.
Proof.
  assert (Hdrop : ∀ t,
    (String.length (dropSemicolonRun t) ≤ String.length t)%nat).
  { induction t as [|c t IH]; simpl; [lia|].
    destruct (Ascii.eqb c semicolon); simpl; lia. }
  induction s as [|c s IH]; simpl; [discriminate|].
  destruct (Ascii.eqb c semicolon); simpl.
  - intros _. pose proof (Hdrop s). lia.
  - intros Hs. apply IH in Hs. lia.
Qed.

End CheckFacts.

(** X9.  On a statement without a block, or with an empty block, [check]
    returns at once: statement and reports are as they were, the options
    are not even looked at, so nothing is thrown and the engine is not
    touched, whatever [primary], [secondaryOptions] and [context] are. *)
Theorem blockless_is_skipped `{Engine : RegExpEngine} `{Tree : TreeProvider}
  `{Utils : !Collaborators} (statement : Statement) :
  hasBlock statement = false ∨ hasEmptyBlock statement = true →
  ∀ primary secondaryOptions context result h,
    check primary secondaryOptions context statement result h =
    (Js.Normal (statement, result), h).
Proof.
  intros Hskip primary secondaryOptions context result h.
  now apply check_skipped.
Qed.

Lemma blockless_is_skipped_witness :
  @hasEmptyBlock Sheet.tree
    (Sheet.mkStatement "rule" ".a " EmptyString (Some []) None) = true ∧
  @check Mini.engine Sheet.tree Sheet.utils "never"
    (Some {[ "except" := COne (PString "/(/") ]}) (mkContext true (Some "x"))
    (Sheet.mkStatement "rule" ".a " EmptyString (Some []) None) [] [] =
  (Js.Normal (Sheet.mkStatement "rule" ".a " EmptyString (Some []) None, []),
   []).
Proof.
  assert (Hempty : @hasEmptyBlock Sheet.tree
            (Sheet.mkStatement "rule" ".a " EmptyString (Some []) None) = true)
    by reflexivity.
  split; [exact Hempty|].
  apply (@blockless_is_skipped Mini.engine Sheet.tree Sheet.utils). now right.
Defined.

(** X10.  Whenever [check] completes, the reports filed before are still
    there, in order, and at most one was added after them; the added report
    is for this rule, has the checked statement as node and the computed
    index, and its message is one of the rule's two messages. *)
Theorem reports_only_grow_by_one `{Engine : RegExpEngine}
  `{Tree : TreeProvider} `{Utils : !Collaborators} (primary : string)
  (secondaryOptions : option (gmap string Comparison)) (context : RuleContext)
  (statement statement' : Statement) (result result' : list Report)
  (h h' : Heap) :
  check primary secondaryOptions context statement result h =
  (Js.Normal (statement', result'), h') →
  result' = result ∨
  ∃ r, result' = result ++ [r] ∧
       report_ruleName r = ruleName ∧
       node r = statement ∧
       index r = closingBraceIndex statement ∧
       (message r = expected messages ∨ message r = rejected messages).
Proof.
  intros [[_ ->] | (e & _ & _ & [(_ & -> & _) | (_ & _ & ->)])]%check_inv;
    [now left | now left |].
  right. eexists. split; [reflexivity|]. repeat split.
  simpl. destruct e; [now left | now right].
Qed.

Lemma reports_only_grow_by_one_witness :
  @check Mini.engine Sheet.tree Sheet.utils "always-multi-line" None
    (mkContext false None) Sheet.multiLineRule [] [] =
  (Js.Normal
     (Sheet.multiLineRule,
      [@mkReport Sheet.tree
         "Expected empty line before closing brace (block-closing-brace-empty-line-before)"
         "block-closing-brace-empty-line-before" Sheet.multiLineRule 19]),
   []) ∧
  ∃ r, [@mkReport Sheet.tree
          "Expected empty line before closing brace (block-closing-brace-empty-line-before)"
          "block-closing-brace-empty-line-before" Sheet.multiLineRule 19] =
       [] ++ [r] ∧ node r = Sheet.multiLineRule.
Proof.
  assert (Hrun :
    @check Mini.engine Sheet.tree Sheet.utils "always-multi-line" None
      (mkContext false None) Sheet.multiLineRule [] [] =
    (Js.Normal
       (Sheet.multiLineRule,
        [@mkReport Sheet.tree
           "Expected empty line before closing brace (block-closing-brace-empty-line-before)"
           "block-closing-brace-empty-line-before" Sheet.multiLineRule 19]),
     [])) by reflexivity.
  split; [exact Hrun|].
  destruct (@reports_only_grow_by_one Mini.engine Sheet.tree Sheet.utils
              _ _ _ _ _ _ _ _ _ Hrun) as [Hsame | (r & Hr & _ & Hnode & _)].
  - discriminate Hsame.
  - now exists r.
Defined.

(** X11.  Fixing and reporting exclude each other.  With [context.fix] set,
    [check] never files a report; the statement it leaves is the one it was
    given or that statement rewritten by one of the two fix helpers, which
    needs [context.newline] to be a string.  With [context.fix] unset,
    [check] never rewrites the statement. *)
Theorem fix_and_report_exclude `{Engine : RegExpEngine}
  `{Tree : TreeProvider} `{Utils : !Collaborators} (primary : string)
  (secondaryOptions : option (gmap string Comparison)) (context : RuleContext)
  (statement statement' : Statement) (result result' : list Report)
  (h h' : Heap) :
  check primary secondaryOptions context statement result h =
  (Js.Normal (statement', result'), h') →
  (fix_ context = true → result' = result) ∧
  (fix_ context = false → statement' = statement) ∧
  (statement' = statement ∨
   ∃ nl, fix_ context = true ∧ newline context = Some nl ∧
         (statement' = addEmptyLineAfter statement nl ∨
          statement' = removeEmptyLinesAfter statement nl)).
Proof.
  intros [[-> ->] | (e & _ & _ & [(Hfix & -> & nl & Hnl & ->)
                                 | (Hfix & -> & ->)])]%check_inv.
  - repeat split; now left.
  - repeat split; [congruence|]. right. exists nl.
    repeat split; try assumption. destruct e; [now left | now right].
  - repeat split; [congruence|]. now left.
Qed.

Lemma fix_and_report_exclude_witness :
  @check Mini.engine Sheet.tree Sheet.utils "always-multi-line" None
    (mkContext true (Some Sheet.nl)) Sheet.multiLineRule [] [] =
  (Js.Normal (Sheet.insertBlankLine Sheet.multiLineRule Sheet.nl, []), []) ∧
  (@nil (@Report Sheet.tree)) = [].
Proof.
  assert (Hrun :
    @check Mini.engine Sheet.tree Sheet.utils "always-multi-line" None
      (mkContext true (Some Sheet.nl)) Sheet.multiLineRule [] [] =
    (Js.Normal (Sheet.insertBlankLine Sheet.multiLineRule Sheet.nl, []), []))
    by reflexivity.
  split; [exact Hrun|].
  destruct (@fix_and_report_exclude Mini.engine Sheet.tree Sheet.utils
              _ _ _ _ _ _ _ _ _ Hrun) as (Hfix & _).
  now apply Hfix.
Defined.





(** X14.  Under the rule's schema, [except] concerns only at-rules without a
    declaration among their direct children: for a statement of another
    type, and for an at-rule that has a [decl] child, [check] does what it
    does without secondary options. *)
Theorem except_concerns_bare_at_rules `{Engine : RegExpEngine}
  `{Tree : TreeProvider} `{Utils : !Collaborators} (primary : string)
  (secondaryOptions : option (gmap string Comparison)) (context : RuleContext)
  (statement : Statement) (result : list Report) (h : Heap) :
  validOptions primary secondaryOptions = true →
  isAtRule statement = false ∨ noDeclarationChild statement = false →
  check primary secondaryOptions context statement result h =
  check primary None context statement result h.
Proof.
  intros Hvalid Hkind.
  assert (Hnone : validOptions primary None = true).
  { unfold validOptions in *. apply andb_true_iff in Hvalid as [-> _].
    reflexivity. }
  destruct (hasBlock statement) eqn:Hblock;
    [|now rewrite !check_skipped by (now left)].
  destruct (hasEmptyBlock statement) eqn:Hfull;
    [now rewrite !check_skipped by (now right)|].
  rewrite (check_non_empty_block _ _ _ _ _ _ _ _ Hblock Hfull
             (expectation_under_schema _ _ _ h Hvalid Hblock)).
  rewrite (check_non_empty_block _ _ _ _ _ _ _ _ Hblock Hfull
             (expectation_under_schema _ _ _ h Hnone Hblock)).
  destruct Hkind as [-> | ->]; now rewrite ?andb_false_r.
Qed.

Lemma except_concerns_bare_at_rules_witness :
  @validOptions Mini.engine "never" Sheet.exceptAfterClosingBrace = true ∧
  @isAtRule Sheet.tree Sheet.multiLineRule = false ∧
  @check Mini.engine Sheet.tree Sheet.utils "never"
    Sheet.exceptAfterClosingBrace (mkContext false None)
    Sheet.multiLineRule [] [] =
  @check Mini.engine Sheet.tree Sheet.utils "never" None
    (mkContext false None) Sheet.multiLineRule [] [].
Proof.
  assert (Hvalid :
    @validOptions Mini.engine "never" Sheet.exceptAfterClosingBrace = true)
    by (vm_compute; reflexivity).
  assert (Hkind : @isAtRule Sheet.tree Sheet.multiLineRule = false)
    by reflexivity.
  split; [exact Hvalid|]. split; [exact Hkind|].
  apply (@except_concerns_bare_at_rules Mini.engine Sheet.tree Sheet.utils);
    [exact Hvalid | now left].
Defined.

(** X15.  With [primary] set to [never], accepted options, fix mode off and
    a statement with a non-empty block: a blank line is expected only of an
    at-rule without declaration children when [except] holds
    [after-closing-brace]; every other statement gets exactly one
    [rejected] report when the whitespace before its brace has a blank
    line, and none otherwise, whether or not its block spans several
    lines. *)
Theorem never_rejects_blank_lines `{Engine : RegExpEngine}
  `{Tree : TreeProvider} `{Utils : !Collaborators}
  (secondaryOptions : option (gmap string Comparison)) (context : RuleContext)
  (statement : Statement) (result : list Report) (h : Heap) :
  validOptions "never" secondaryOptions = true →
  hasBlock statement = true →
  hasEmptyBlock statement = false →
  fix_ context = false →
  let inverted := exceptContains secondaryOptions "after-closing-brace"
                  && isAtRule statement && noDeclarationChild statement in
  check "never" secondaryOptions context statement result h =
  (Js.Normal
     (statement,
      if Bool.eqb inverted (hasEmptyLine (before statement)) then result
      else result ++ [mkReport (if inverted then expected messages
                                else rejected messages)
                               ruleName statement
                               (closingBraceIndex statement)]),
   h).
Proof.
  intros Hvalid Hblock Hfull Hfix inverted.
  rewrite (check_non_empty_block _ _ _ _ _ _ _ _ Hblock Hfull
             (expectation_under_schema _ _ _ h Hvalid Hblock)).
  rewrite Hfix. fold inverted.
  change (String.eqb "never" "never") with true.
  change (String.eqb "never" "always-multi-line") with false.
  destruct inverted; simpl andb;
    now destruct (Bool.eqb _ (hasEmptyLine (before statement))).
Qed.

Lemma never_rejects_blank_lines_witness :
  @validOptions Mini.engine "never" None = true ∧
  @hasBlock Sheet.tree Sheet.multiLineRule = true ∧
  @hasEmptyBlock Sheet.tree Sheet.multiLineRule = false ∧
  @check Mini.engine Sheet.tree Sheet.utils "never" None
    (mkContext false None) Sheet.multiLineRule [] [] =
  (Js.Normal (Sheet.multiLineRule, []), []).
Proof.
  assert (Hvalid : @validOptions Mini.engine "never" None = true)
    by reflexivity.
  assert (Hblock : @hasBlock Sheet.tree Sheet.multiLineRule = true)
    by reflexivity.
  assert (Hfull : @hasEmptyBlock Sheet.tree Sheet.multiLineRule = false)
    by reflexivity.
  split; [exact Hvalid|]. split; [exact Hblock|]. split; [exact Hfull|].
  exact (@never_rejects_blank_lines Mini.engine Sheet.tree Sheet.utils None
           (mkContext false None) Sheet.multiLineRule [] [] Hvalid Hblock
           Hfull eq_refl).
Defined.

(** X16.  The index reported is the last position of the statement's text
    or the one before it, and it lies inside the text whenever the text is
    not empty; it is the one before the last only when a carriage return
    stands there. *)
Theorem index_within_text `{Tree : TreeProvider} (statement : Statement) :
  Js.length (toString statement) - 2 ≤ closingBraceIndex statement ≤
  Js.length (toString statement) - 1 ∧
  (0 < Js.length (toString statement) →
   0 ≤ closingBraceIndex statement < Js.length (toString statement)) ∧
  (closingBraceIndex statement = Js.length (toString statement) - 2 →
   Js.charAt (toString statement) (closingBraceIndex statement) = Some CR).
Proof.
  unfold closingBraceIndex.
  destruct (Js.charIs _ CR) eqn:Hchar.
  - apply StringFacts.charIs_true in Hchar.
    assert (0 ≤ Js.length (toString statement) - 1 - 1).
    { destruct (Z.ltb_spec (Js.length (toString statement) - 1 - 1) 0);
        [|assumption].
      now rewrite StringFacts.charAt_negative in Hchar. }
    repeat split; try lia. now intros _.
  - repeat split; lia.
Qed.

Lemma index_within_text_witness :
  0 < Js.length (@toString Sheet.tree Sheet.multiLineRule) ∧
  0 ≤ @closingBraceIndex Sheet.tree Sheet.multiLineRule < 20.
Proof.
  assert (Hlen : 0 < Js.length (@toString Sheet.tree Sheet.multiLineRule))
    by reflexivity.
  split; [exact Hlen|].
  destruct (@index_within_text Sheet.tree Sheet.multiLineRule)
    as (_ & Hinside & _).
  exact (Hinside Hlen).
Defined.

(** X17.  The text inspected is never longer than the raw whitespace; it is
    the raw whitespace itself exactly when that holds no semicolon, and
    strictly shorter as soon as it holds one. *)
Theorem inspected_text_length `{Tree : TreeProvider} (statement : Statement)
  (raw : string) :
  raw = match raws_after statement with
        | Some after => after
        | None => EmptyString
        end →
  (String.length (before statement) ≤ String.length raw)%nat ∧
  (before statement = raw ↔ noSemicolon raw = true) ∧
  (noSemicolon raw = false →
   (String.length (before statement) < String.length raw)%nat).
Proof.
  intros Hraw.
  assert (Hbefore : before statement = replaceSemicolonRun raw).
  { unfold before. subst raw.
    destruct (raws_after statement) as [after|]; [|reflexivity].
    now rewrite orEmpty_id. }
  rewrite Hbefore. split; [apply replaceSemicolonRun_length|]. split.
  - split; [|apply replaceSemicolonRun_none].
    intros Hsame. destruct (noSemicolon raw) eqn:Hsemi; [reflexivity|].
    pose proof (replaceSemicolonRun_shorter raw Hsemi) as Hlt.
    rewrite Hsame in Hlt. lia.
  - apply replaceSemicolonRun_shorter.
Qed.

Lemma inspected_text_length_witness :
  (String.length (@before Sheet.tree Sheet.straySemicolons) < 4)%nat.
Proof.
  destruct (@inspected_text_length Sheet.tree Sheet.straySemicolons
              (";" +:+ Sheet.nl +:+ ";" +:+ Sheet.nl) eq_refl)
    as (_ & _ & Hshorter).
  now apply Hshorter.
Defined.
